(** * Franchise lineage registry, epoch annotator and validation engine

    A shallow embedding of the franchise mapping scripts
    ([franchise_mapping.py], [corrected_franchise_mapping.py]), of the
    validation scripts ([data_validation.py], [final_data_validation.py])
    and of the loaders ([gather_mlb_wl.py], [enhanced_gather_mlb_wl.py]),
    with the properties the specification states about them and further
    properties of the code.

    Conventions of the embedding:
    - a Python [dict] whose iteration order is observable (the lineage
      table) is an association list in insertion order; a [dict] used
      only through lookup and insertion (the identifier map) is a [gmap];
    - a raised exception is the [Raise] case of [result];
    - a pandas table is a list of rows, column selections and boolean
      masks are lists aligned with it;
    - a cell of a float column is a binary64 float, and what the
      validator computes on the cells is computed in binary64; the
      statistics of a column (mean, variance, effect size) are computed
      on the exact values of the cells. *)

From Stdlib Require Import ZArith QArith Qabs Qcanon Qcabs Lqa String DecimalString Lia.
From Stdlib Require Import Floats.
From stdpp Require Import base gmap strings list.

Open Scope Z_scope.

(** ** Exceptions and results *)

Inductive Exception :=
  | ValueError (msg : string)
  | KeyError (key : string).

Inductive result (A : Type) :=
  | Ok (a : A)
  | Raise (e : Exception).
Arguments Ok {A} a.
Arguments Raise {A} e.

(** Sequencing: the first exception raised ends the computation. *)
#[global] Instance result_bind : MBind result := λ A B k r,
  match r with
  | Ok a => k a
  | Raise e => Raise e
  end.

(** [str(n)] for a Python int. *)
Definition str (n : Z) : string := NilZero.string_of_int (Z.to_int n).

(** ** Data model of the registry *)

Record RelocationEvent := {
  year : Z;
  from_city : string;
  to_city : string;
  from_team_name : string;
  to_team_name : string;
  event_notes : string
}.

Record FranchiseLineage := {
  canonical_id : string;
  current_name : string;
  lahman_ids : list string;
  relocations : list RelocationEvent;
  founded_year : Z;
  notes : string
}.

(** The lineage table, [Dict[str, FranchiseLineage]], in insertion order. *)
Abbreviation Lineages := (list (string * FranchiseLineage)).

(** ** [_build_lahman_mapping] *)

Definition duplicate_message (lahman_id : string) : string :=
  "Duplicate Lahman ID " +:+ lahman_id +:+ " found in multiple lineages".

(** The inner loop: [for lahman_id in lineage.lahman_ids]. *)
Fixpoint add_lahman_ids (canonical : string) (ids : list string)
    (mapping : gmap string string) : result (gmap string string) :=
  match ids with
  | [] => Ok mapping
  | lahman_id :: ids' =>
      if bool_decide (is_Some (mapping !! lahman_id))
      then Raise (ValueError (duplicate_message lahman_id))
      else add_lahman_ids canonical ids' (<[lahman_id := canonical]> mapping)
  end.

(** The outer loop: [for canonical_id, lineage in self.lineages.items()]. *)
Fixpoint add_lineages (items : Lineages) (mapping : gmap string string)
    : result (gmap string string) :=
  match items with
  | [] => Ok mapping
  | (canonical, lineage) :: items' =>
      mapping' ← add_lahman_ids canonical (lahman_ids lineage) mapping ;
      add_lineages items' mapping'
  end.

Definition _build_lahman_mapping (lineages : Lineages)
    : result (gmap string string) :=
  add_lineages lineages ∅.

(** The mapper object: [__init__] builds the identifier map from the
    lineage table, and fails when the build fails. *)
Record Mapper := {
  lineages : Lineages;
  lahman_to_canonical : gmap string string
}.

Definition new_mapper (table : Lineages) : result Mapper :=
  mapping ← _build_lahman_mapping table ;
  Ok {| lineages := table; lahman_to_canonical := mapping |}.

Definition get_canonical_franchise (m : Mapper) (lahman_id : string)
    : option string :=
  lahman_to_canonical m !! lahman_id.

Definition get_franchise_info (m : Mapper) (canonical : string)
    : option FranchiseLineage :=
  (λ found, found.2.2) <$> list_find (λ kv, kv.1 = canonical) (lineages m).

Definition get_relocated_franchises (m : Mapper) : list string :=
  fst <$> filter (λ kv, relocations kv.2 ≠ []) (lineages m).

(** ** Vocabulary for the properties of the identifier map *)

(** All identifiers of the table, in the order the build visits them,
    each paired with the key of its lineage. *)
Definition identifier_pairs (items : Lineages) : list (string * string) :=
  items ≫= λ kv, (λ lahman_id, (lahman_id, kv.1)) <$> lahman_ids kv.2.

Definition all_identifiers (items : Lineages) : list string :=
  items ≫= λ kv, lahman_ids kv.2.


(** The flat loop the two nested loops amount to. *)
Fixpoint insert_pairs (ps : list (string * string))
    (mapping : gmap string string) : result (gmap string string) :=
  match ps with
  | [] => Ok mapping
  | (lahman_id, canonical) :: ps' =>
      if bool_decide (is_Some (mapping !! lahman_id))
      then Raise (ValueError (duplicate_message lahman_id))
      else insert_pairs ps' (<[lahman_id := canonical]> mapping)
  end.


(** ** The two lineage tables of the repository *)

(** [FranchiseMapper._build_franchise_lineages]: the table of [franchise_mapping.py]. *)
Definition FranchiseMapper_lineages : Lineages := [
  ("ATL", {| canonical_id := "ATL";
      current_name := "Atlanta Braves";
      lahman_ids := ["BSN"; "ML1"; "ATL"];
      relocations :=
        [Build_RelocationEvent 1953 "Boston" "Milwaukee" "Boston Braves" "Milwaukee Braves" EmptyString;
         Build_RelocationEvent 1966 "Milwaukee" "Atlanta" "Milwaukee Braves" "Atlanta Braves" EmptyString];
      founded_year := 1876;
      notes := "Franchise moved twice: Boston (1876-1952) → Milwaukee (1953-1965) → Atlanta (1966-present)" |});
  ("LAD", {| canonical_id := "LAD";
      current_name := "Los Angeles Dodgers";
      lahman_ids := ["BRO"; "LAD"; "LAN"];
      relocations :=
        [Build_RelocationEvent 1958 "Brooklyn" "Los Angeles" "Brooklyn Dodgers" "Los Angeles Dodgers" EmptyString];
      founded_year := 1884;
      notes := "Brooklyn era uses teamID BRO but franchID LAD in Lahman data" |});
  ("SFG", {| canonical_id := "SFG";
      current_name := "San Francisco Giants";
      lahman_ids := ["NY1"; "SFN"];
      relocations :=
        [Build_RelocationEvent 1958 "New York" "San Francisco" "New York Giants" "San Francisco Giants" EmptyString];
      founded_year := 1883;
      notes := "Same year as Dodgers move to LA" |});
  ("OAK", {| canonical_id := "OAK";
      current_name := "Oakland Athletics";
      lahman_ids := ["PHA"; "KC1"; "OAK"];
      relocations :=
        [Build_RelocationEvent 1955 "Philadelphia" "Kansas City" "Philadelphia Athletics" "Kansas City Athletics" EmptyString;
         Build_RelocationEvent 1968 "Kansas City" "Oakland" "Kansas City Athletics" "Oakland Athletics" EmptyString];
      founded_year := 1901;
      notes := "Three-city franchise with planned move to Sacramento in 2025" |});
  ("MIN", {| canonical_id := "MIN";
      current_name := "Minnesota Twins";
      lahman_ids := ["WS1"; "MIN"];
      relocations :=
        [Build_RelocationEvent 1961 "Washington" "Minneapolis-St. Paul" "Washington Senators" "Minnesota Twins" EmptyString];
      founded_year := 1901;
      notes := "Original Washington Senators franchise (1901-1960)" |});
  ("TEX", {| canonical_id := "TEX";
      current_name := "Texas Rangers";
      lahman_ids := ["WS2"; "TEX"];
      relocations :=
        [Build_RelocationEvent 1972 "Washington" "Dallas-Fort Worth" "Washington Senators" "Texas Rangers" EmptyString];
      founded_year := 1961;
      notes := "Expansion Washington Senators franchise (1961-1971), different from original Senators" |});
  ("BAL", {| canonical_id := "BAL";
      current_name := "Baltimore Orioles";
      lahman_ids := ["SLA"; "BAL"];
      relocations :=
        [Build_RelocationEvent 1954 "St. Louis" "Baltimore" "St. Louis Browns" "Baltimore Orioles" EmptyString];
      founded_year := 1902;
      notes := "St. Louis Browns became Baltimore Orioles" |});
  ("MIL", {| canonical_id := "MIL";
      current_name := "Milwaukee Brewers";
      lahman_ids := ["SE1"; "ML4"; "MIL"];
      relocations :=
        [Build_RelocationEvent 1970 "Seattle" "Milwaukee" "Seattle Pilots" "Milwaukee Brewers" EmptyString];
      founded_year := 1969;
      notes := "Seattle Pilots (1969) became Milwaukee Brewers (1970), switched from AL to NL in 1998" |});
  ("WSN", {| canonical_id := "WSN";
      current_name := "Washington Nationals";
      lahman_ids := ["MON"; "WAS"];
      relocations :=
        [Build_RelocationEvent 2005 "Montreal" "Washington" "Montreal Expos" "Washington Nationals" EmptyString];
      founded_year := 1969;
      notes := "Montreal Expos (1969-2004) became Washington Nationals (2005-present)" |});
  ("NYY", {| canonical_id := "NYY";
      current_name := "New York Yankees";
      lahman_ids := ["BLA"; "NYA"];
      relocations :=
        [Build_RelocationEvent 1903 "Baltimore" "New York" "Baltimore Orioles" "New York Highlanders" EmptyString];
      founded_year := 1901;
      notes := "Original Baltimore Orioles (1901-1902) became NY Highlanders/Yankees. Different from modern Orioles." |});
  ("HOU", {| canonical_id := "HOU";
      current_name := "Houston Astros";
      lahman_ids := ["HOU"];
      relocations :=
        [];
      founded_year := 1962;
      notes := "No city relocation, but switched from NL to AL in 2013" |});
  ("FLA", {| canonical_id := "FLA";
      current_name := "Miami Marlins";
      lahman_ids := ["FLO"; "MIA"];
      relocations :=
        [];
      founded_year := 1993;
      notes := "Florida Marlins (1993-2011) became Miami Marlins (2012-present), same city" |})
].

(** [CorrectedFranchiseMapper._build_franchise_lineages]: the table of [corrected_franchise_mapping.py]. *)
Definition CorrectedFranchiseMapper_lineages : Lineages := [
  ("ATL", {| canonical_id := "ATL";
      current_name := "Atlanta Braves";
      lahman_ids := ["ATL"];
      relocations :=
        [Build_RelocationEvent 1953 "Boston" "Milwaukee" "Boston Braves" "Milwaukee Braves" EmptyString;
         Build_RelocationEvent 1966 "Milwaukee" "Atlanta" "Milwaukee Braves" "Atlanta Braves" EmptyString];
      founded_year := 1876;
      notes := "Franchise moved twice: Boston (1876-1952) → Milwaukee (1953-1965) → Atlanta (1966-present)" |});
  ("LAD", {| canonical_id := "LAD";
      current_name := "Los Angeles Dodgers";
      lahman_ids := ["LAD"];
      relocations :=
        [Build_RelocationEvent 1958 "Brooklyn" "Los Angeles" "Brooklyn Dodgers" "Los Angeles Dodgers" EmptyString];
      founded_year := 1884;
      notes := "Brooklyn era uses teamID BRO but franchID LAD in Lahman data" |});
  ("SFG", {| canonical_id := "SFG";
      current_name := "San Francisco Giants";
      lahman_ids := ["SFG"];
      relocations :=
        [Build_RelocationEvent 1958 "New York" "San Francisco" "New York Giants" "San Francisco Giants" EmptyString];
      founded_year := 1883;
      notes := "Same year as Dodgers move to LA" |});
  ("OAK", {| canonical_id := "OAK";
      current_name := "Oakland Athletics";
      lahman_ids := ["OAK"];
      relocations :=
        [Build_RelocationEvent 1955 "Philadelphia" "Kansas City" "Philadelphia Athletics" "Kansas City Athletics" EmptyString;
         Build_RelocationEvent 1968 "Kansas City" "Oakland" "Kansas City Athletics" "Oakland Athletics" EmptyString];
      founded_year := 1901;
      notes := "Three-city franchise with planned move to Sacramento in 2025" |});
  ("MIN", {| canonical_id := "MIN";
      current_name := "Minnesota Twins";
      lahman_ids := ["MIN"];
      relocations :=
        [Build_RelocationEvent 1961 "Washington" "Minneapolis-St. Paul" "Washington Senators" "Minnesota Twins" EmptyString];
      founded_year := 1901;
      notes := "Original Washington Senators franchise (1901-1960)" |});
  ("TEX", {| canonical_id := "TEX";
      current_name := "Texas Rangers";
      lahman_ids := ["TEX"];
      relocations :=
        [Build_RelocationEvent 1972 "Washington" "Dallas-Fort Worth" "Washington Senators" "Texas Rangers" EmptyString];
      founded_year := 1961;
      notes := "Expansion Washington Senators franchise (1961-1971), different from original Senators" |});
  ("BAL", {| canonical_id := "BAL";
      current_name := "Baltimore Orioles";
      lahman_ids := ["BAL"];
      relocations :=
        [Build_RelocationEvent 1954 "St. Louis" "Baltimore" "St. Louis Browns" "Baltimore Orioles" EmptyString];
      founded_year := 1902;
      notes := "St. Louis Browns became Baltimore Orioles" |});
  ("MIL", {| canonical_id := "MIL";
      current_name := "Milwaukee Brewers";
      lahman_ids := ["MIL"];
      relocations :=
        [Build_RelocationEvent 1970 "Seattle" "Milwaukee" "Seattle Pilots" "Milwaukee Brewers" EmptyString];
      founded_year := 1969;
      notes := "Seattle Pilots (1969) became Milwaukee Brewers (1970), switched from AL to NL in 1998" |});
  ("WSN", {| canonical_id := "WSN";
      current_name := "Washington Nationals";
      lahman_ids := ["WSN"];
      relocations :=
        [Build_RelocationEvent 2005 "Montreal" "Washington" "Montreal Expos" "Washington Nationals" EmptyString];
      founded_year := 1969;
      notes := "Montreal Expos (1969-2004) became Washington Nationals (2005-present)" |});
  ("NYY", {| canonical_id := "NYY";
      current_name := "New York Yankees";
      lahman_ids := ["NYY"];
      relocations :=
        [Build_RelocationEvent 1903 "Baltimore" "New York" "Baltimore Orioles" "New York Highlanders" EmptyString];
      founded_year := 1901;
      notes := "Original Baltimore Orioles (1901-1902) became NY Highlanders/Yankees. Different from modern Orioles." |});
  ("ANA", {| canonical_id := "ANA";
      current_name := "Los Angeles Angels";
      lahman_ids := ["ANA"];
      relocations :=
        [];
      founded_year := 1961;
      notes := "Los Angeles Angels (1961-1964) → California Angels (1965-1996) → Anaheim Angels (1997-2004) → Los Angeles Angels of Anaheim (2005-2015) → Los Angeles Angels (2016-present)" |});
  ("FLA", {| canonical_id := "FLA";
      current_name := "Miami Marlins";
      lahman_ids := ["FLA"];
      relocations :=
        [];
      founded_year := 1993;
      notes := "Florida Marlins (1993-2011) became Miami Marlins (2012-present), same city" |});
  ("BOS", {| canonical_id := "BOS";
      current_name := "Boston Red Sox";
      lahman_ids := ["BOS"];
      relocations :=
        [];
      founded_year := 1901;
      notes := "Boston Red Sox, stable franchise" |});
  ("CHC", {| canonical_id := "CHC";
      current_name := "Chicago Cubs";
      lahman_ids := ["CHC"];
      relocations :=
        [];
      founded_year := 1876;
      notes := "Chicago Cubs, stable franchise" |});
  ("CHW", {| canonical_id := "CHW";
      current_name := "Chicago White Sox";
      lahman_ids := ["CHW"];
      relocations :=
        [];
      founded_year := 1901;
      notes := "Chicago White Sox, stable franchise" |});
  ("CIN", {| canonical_id := "CIN";
      current_name := "Cincinnati Reds";
      lahman_ids := ["CIN"];
      relocations :=
        [];
      founded_year := 1882;
      notes := "Cincinnati Reds, stable franchise" |});
  ("CLE", {| canonical_id := "CLE";
      current_name := "Cleveland Guardians";
      lahman_ids := ["CLE"];
      relocations :=
        [];
      founded_year := 1901;
      notes := "Cleveland franchise, name changed to Guardians in 2022" |});
  ("DET", {| canonical_id := "DET";
      current_name := "Detroit Tigers";
      lahman_ids := ["DET"];
      relocations :=
        [];
      founded_year := 1901;
      notes := "Detroit Tigers, stable franchise" |});
  ("PHI", {| canonical_id := "PHI";
      current_name := "Philadelphia Phillies";
      lahman_ids := ["PHI"];
      relocations :=
        [];
      founded_year := 1883;
      notes := "Philadelphia Phillies, stable franchise" |});
  ("PIT", {| canonical_id := "PIT";
      current_name := "Pittsburgh Pirates";
      lahman_ids := ["PIT"];
      relocations :=
        [];
      founded_year := 1882;
      notes := "Pittsburgh Pirates, stable franchise" |});
  ("STL", {| canonical_id := "STL";
      current_name := "St. Louis Cardinals";
      lahman_ids := ["STL"];
      relocations :=
        [];
      founded_year := 1882;
      notes := "St. Louis Cardinals, stable franchise" |});
  ("ARI", {| canonical_id := "ARI";
      current_name := "Arizona Diamondbacks";
      lahman_ids := ["ARI"];
      relocations :=
        [];
      founded_year := 1998;
      notes := "Arizona Diamondbacks expansion team" |});
  ("COL", {| canonical_id := "COL";
      current_name := "Colorado Rockies";
      lahman_ids := ["COL"];
      relocations :=
        [];
      founded_year := 1993;
      notes := "Colorado Rockies expansion team" |});
  ("HOU", {| canonical_id := "HOU";
      current_name := "Houston Astros";
      lahman_ids := ["HOU"];
      relocations :=
        [];
      founded_year := 1962;
      notes := "Houston Astros, switched from NL to AL in 2013" |});
  ("KCR", {| canonical_id := "KCR";
      current_name := "Kansas City Royals";
      lahman_ids := ["KCR"];
      relocations :=
        [];
      founded_year := 1969;
      notes := "Kansas City Royals expansion team" |});
  ("NYM", {| canonical_id := "NYM";
      current_name := "New York Mets";
      lahman_ids := ["NYM"];
      relocations :=
        [];
      founded_year := 1962;
      notes := "New York Mets expansion team" |});
  ("SDP", {| canonical_id := "SDP";
      current_name := "San Diego Padres";
      lahman_ids := ["SDP"];
      relocations :=
        [];
      founded_year := 1969;
      notes := "San Diego Padres expansion team" |});
  ("SEA", {| canonical_id := "SEA";
      current_name := "Seattle Mariners";
      lahman_ids := ["SEA"];
      relocations :=
        [];
      founded_year := 1977;
      notes := "Seattle Mariners expansion team" |});
  ("TBD", {| canonical_id := "TBD";
      current_name := "Tampa Bay Rays";
      lahman_ids := ["TBD"];
      relocations :=
        [];
      founded_year := 1998;
      notes := "Tampa Bay Rays expansion team" |});
  ("TOR", {| canonical_id := "TOR";
      current_name := "Toronto Blue Jays";
      lahman_ids := ["TOR"];
      relocations :=
        [];
      founded_year := 1977;
      notes := "Toronto Blue Jays expansion team" |})
].

(** ** Cells of the float columns

    pandas holds [W_pct] as 64-bit floats, and Python and numpy compute
    on them in IEEE 754 binary64, rounding to nearest with ties to even:
    these are the kernel's primitive floats, with [nan] for NaN, which is
    also the null of a float column. A decimal constant stands for the
    nearest binary64 number, as it does in Python. *)
#[global] Set Warnings "-inexact-float".

(** The cast of an [int64] cell to a float, as true division and a
    comparison with a float do it. *)
Definition of_int64 (n : Z) : float :=
  if n <? 0 then PrimFloat.opp (PrimFloat.of_uint63 (Uint63.of_Z (- n)))
  else PrimFloat.of_uint63 (Uint63.of_Z n).

(** [x > y] on floats. *)
Definition gtb (x y : float) : bool := PrimFloat.ltb y x.

(** [np.rint]: the nearest integer, a tie to the even one. A float of
    magnitude [2^52] or more is an integer; below, adding and taking off
    [2^52] rounds the magnitude to an integer in the rounding of the
    addition. *)
Definition rint (x : float) : float :=
  let two52 := 4503599627370496%float in
  if PrimFloat.ltb (PrimFloat.abs x) two52 then
    let magnitude :=
      PrimFloat.sub (PrimFloat.add (PrimFloat.abs x) two52) two52 in
    if PrimFloat.get_sign x then PrimFloat.opp magnitude else magnitude
  else x.

(** [series.round(3)] on one cell: numpy multiplies by [10 ** 3], rounds
    to the nearest integer and divides. *)
Definition round3 (x : float) : float :=
  PrimFloat.div (rint (PrimFloat.mul x 1000%float)) 1000%float.

(** [series.fillna(value)] on one cell. *)
Definition fillna (value x : float) : float :=
  if PrimFloat.is_nan x then value else x.

(** ** Numbers of the statistics

    The mean, the variance and what is computed from them are floats in
    pandas, summed in an order that depends on the installation. The
    model computes them on the exact values of the cells, over the
    rationals, and keeps the special values of IEEE arithmetic (the two
    infinities and NaN, the null of a float column): the rounding of
    these computations and the sign of zero are not modelled. *)

Inductive float64 :=
  | Finite (q : Qc)
  | PInf
  | NInf
  | NaN.

Definition of_Z (n : Z) : float64 := Finite (Q2Qc (inject_Z n)).

(** The exact value of a cell. *)
Definition exact (x : float) : float64 :=
  match Prim2SF x with
  | S754_zero _ => Finite 0%Qc
  | S754_infinity false => PInf
  | S754_infinity true => NInf
  | S754_nan => NaN
  | S754_finite negative m e =>
      Finite (Q2Qc (inject_Z (if negative then Z.neg m else Z.pos m) * 2 ^ e))
  end.

Definition of_Q (q : Q) : float64 := Finite (Q2Qc q).

Definition fneg (x : float64) : float64 :=
  match x with
  | Finite q => Finite (- q)%Qc
  | PInf => NInf
  | NInf => PInf
  | NaN => NaN
  end.

Definition fabs (x : float64) : float64 :=
  match x with
  | Finite q => Finite (Qcabs q)
  | PInf | NInf => PInf
  | NaN => NaN
  end.

Definition fadd (x y : float64) : float64 :=
  match x, y with
  | NaN, _ | _, NaN => NaN
  | Finite a, Finite b => Finite (a + b)%Qc
  | PInf, NInf | NInf, PInf => NaN
  | PInf, _ | _, PInf => PInf
  | NInf, _ | _, NInf => NInf
  end.

Definition fsub (x y : float64) : float64 := fadd x (fneg y).

(** An infinity with the sign of [q] times the sign of [x]; NaN for zero. *)
Definition signed_inf (q : Qc) (x : float64) : float64 :=
  match (q ?= 0)%Qc with
  | Eq => NaN
  | Gt => x
  | Lt => fneg x
  end.

Definition fmul (x y : float64) : float64 :=
  match x, y with
  | NaN, _ | _, NaN => NaN
  | Finite a, Finite b => Finite (a * b)%Qc
  | Finite a, i => signed_inf a i
  | i, Finite b => signed_inf b i
  | PInf, PInf | NInf, NInf => PInf
  | PInf, NInf | NInf, PInf => NInf
  end.

(** numpy division: a zero divisor gives an infinity or NaN, no exception. *)
Definition fdiv (x y : float64) : float64 :=
  match x, y with
  | NaN, _ | _, NaN => NaN
  | Finite a, Finite b =>
      if bool_decide (b = 0%Qc) then signed_inf a PInf else Finite (a / b)%Qc
  | Finite _, _ => Finite 0%Qc
  | i, Finite b => if bool_decide (b < 0)%Qc then fneg i else i
  | _, _ => NaN
  end.

(** Comparisons: any comparison with NaN is false. *)
Definition fltb (x y : float64) : bool :=
  match x, y with
  | NaN, _ | _, NaN => false
  | Finite a, Finite b => bool_decide (a < b)%Qc
  | NInf, NInf => false
  | NInf, _ => true
  | _, PInf => match x with PInf => false | _ => true end
  | _, _ => false
  end.

Definition fgtb (x y : float64) : bool := fltb y x.

Definition fleb (x y : float64) : bool :=
  match x, y with
  | NaN, _ | _, NaN => false
  | Finite a, Finite b => bool_decide (a <= b)%Qc
  | NInf, _ => true
  | _, PInf => true
  | _, _ => false
  end.

Definition fgeb (x y : float64) : bool := fleb y x.

Definition isnull (x : float64) : bool :=
  match x with NaN => true | _ => false end.

(** ** Season tables *)

(** One row of the input table ([team_seasons.csv]). *)
Record Row := {
  yearID : Z;
  teamID : string;
  franchID : string;
  lgID : string;
  name : string;
  W : Z;
  L : Z;
  G : Z;
  W_pct : float
}.

(** The columns [create_annotated_dataset] adds to a row. A column that
    holds [None] or NaN in pandas is an [option] here. *)
Record AnnotatedRow := {
  season : Row;
  canonical_franchise : option string;
  is_relocated_franchise : bool;
  relocation_year : option Z;
  pre_relocation : bool;
  post_relocation : bool;
  years_since_relocation : option Z
}.

(** [get_analysis_ready_data] adds one more column. *)
Record AnalysisRow := {
  annotated : AnnotatedRow;
  relocation_era : string
}.

(** Assignments to one column of a row. *)
Definition set_is_relocated_franchise (v : bool) (r : AnnotatedRow) :=
  {| season := season r; canonical_franchise := canonical_franchise r;
     is_relocated_franchise := v; relocation_year := relocation_year r;
     pre_relocation := pre_relocation r; post_relocation := post_relocation r;
     years_since_relocation := years_since_relocation r |}.

Definition set_relocation_year (v : option Z) (r : AnnotatedRow) :=
  {| season := season r; canonical_franchise := canonical_franchise r;
     is_relocated_franchise := is_relocated_franchise r; relocation_year := v;
     pre_relocation := pre_relocation r; post_relocation := post_relocation r;
     years_since_relocation := years_since_relocation r |}.

Definition set_pre_relocation (v : bool) (r : AnnotatedRow) :=
  {| season := season r; canonical_franchise := canonical_franchise r;
     is_relocated_franchise := is_relocated_franchise r;
     relocation_year := relocation_year r;
     pre_relocation := v; post_relocation := post_relocation r;
     years_since_relocation := years_since_relocation r |}.

Definition set_post_relocation (v : bool) (r : AnnotatedRow) :=
  {| season := season r; canonical_franchise := canonical_franchise r;
     is_relocated_franchise := is_relocated_franchise r;
     relocation_year := relocation_year r;
     pre_relocation := pre_relocation r; post_relocation := v;
     years_since_relocation := years_since_relocation r |}.

Definition set_years_since_relocation (v : option Z) (r : AnnotatedRow) :=
  {| season := season r; canonical_franchise := canonical_franchise r;
     is_relocated_franchise := is_relocated_franchise r;
     relocation_year := relocation_year r;
     pre_relocation := pre_relocation r; post_relocation := post_relocation r;
     years_since_relocation := v |}.

Definition set_relocation_era (v : string) (r : AnalysisRow) :=
  {| annotated := annotated r; relocation_era := v |}.

Definition on_annotated (f : AnnotatedRow → AnnotatedRow) (r : AnalysisRow) :=
  {| annotated := f (annotated r); relocation_era := relocation_era r |}.

(** *** Masks and masked assignment *)

(** [a & b] on boolean masks. *)
Definition mask_and (a b : list bool) : list bool := zip_with andb a b.

(** [df[mask]]: the rows the mask selects. *)
Fixpoint select {A} (mask : list bool) (df : list A) : list A :=
  match mask, df with
  | b :: mask', r :: df' =>
      if b then r :: select mask' df' else select mask' df'
  | _, _ => []
  end.

(** [df.loc[mask, col] = v] for a scalar [v]. *)
Definition loc_assign {A} (mask : list bool) (set : A → A) (df : list A)
    : list A :=
  zip_with (λ (b : bool) r, if b then set r else r) mask df.

(** [df.loc[mask, col] = series] for a series computed from [df[mask]]:
    the selected rows take the values in order. *)
Fixpoint loc_assign_series {A V} (mask : list bool) (series : list V)
    (set : V → A → A) (df : list A) : list A :=
  match mask, df with
  | true :: mask', r :: df' =>
      match series with
      | v :: series' => set v r :: loc_assign_series mask' series' set df'
      | [] => r :: loc_assign_series mask' [] set df'
      end
  | false :: mask', r :: df' => r :: loc_assign_series mask' series set df'
  | _, _ => df
  end.

(** ** The epoch annotator *)

(** [max(relocations, key=lambda x: x.year)] on a non-empty list: the
    first event among those of the greatest year. *)
Fixpoint max_by_year (best : RelocationEvent) (rest : list RelocationEvent)
    : RelocationEvent :=
  match rest with
  | [] => best
  | x :: rest' => max_by_year (if year best <? year x then x else best) rest'
  end.

Section relocation_columns.
(** The block that marks the relocated rows is the same text in both
    scripts; it is written once, over the rows of either table. *)
Context {A : Type}.
Variable get : A → AnnotatedRow.
Variable upd : (AnnotatedRow → AnnotatedRow) → A → A.

Definition franchise_mask (canonical : string) (df : list A) : list bool :=
  (λ r, bool_decide (canonical_franchise (get r) = Some canonical)) <$> df.

Definition year_mask (p : Z → bool) (df : list A) : list bool :=
  (λ r, p (yearID (season (get r)))) <$> df.

Definition mark_relocation (canonical : string)
    (latest_relocation : RelocationEvent) (df : list A) : list A :=
  let franchise_mask := franchise_mask canonical df in
  let df := loc_assign franchise_mask
              (upd (set_is_relocated_franchise true)) df in
  let df := loc_assign franchise_mask
              (upd (set_relocation_year (Some (year latest_relocation)))) df in
  let pre_mask :=
    mask_and franchise_mask (year_mask (λ y, y <? year latest_relocation) df) in
  let post_mask :=
    mask_and franchise_mask (year_mask (λ y, year latest_relocation <=? y) df) in
  let df := loc_assign pre_mask (upd (set_pre_relocation true)) df in
  let df := loc_assign post_mask (upd (set_post_relocation true)) df in
  let post_years :=
    (λ r, yearID (season (get r)) - year latest_relocation)
      <$> select post_mask df in
  loc_assign_series post_mask post_years
    (λ v, upd (set_years_since_relocation (Some v))) df.
End relocation_columns.

(** *** [create_annotated_dataset] ([franchise_mapping.py]) *)

(** One round of [for canonical_id, lineage in mapper.lineages.items()]. *)
Definition annotate_lineage (df : list AnnotatedRow)
    (item : string * FranchiseLineage) : list AnnotatedRow :=
  match relocations item.2 with
  | [] => df
  | first :: others =>
      mark_relocation id id item.1 (max_by_year first others) df
  end.

Definition create_annotated_dataset (df : list Row) (mapper : Mapper)
    : list AnnotatedRow :=
  let df_annotated :=
    (λ r, {| season := r;
             canonical_franchise := lahman_to_canonical mapper !! franchID r;
             is_relocated_franchise := false;
             relocation_year := None;
             pre_relocation := false;
             post_relocation := false;
             years_since_relocation := None |}) <$> df in
  foldl annotate_lineage df_annotated (lineages mapper).

(** *** [get_analysis_ready_data] ([corrected_franchise_mapping.py]) *)

Definition era_label (relocation : RelocationEvent) : string :=
  "around_" +:+ str (year relocation).

(** One round of [for relocation in lineage.relocations]. *)
Definition mark_era (franchise_mask : list bool) (df : list AnalysisRow)
    (relocation : RelocationEvent) : list AnalysisRow :=
  let era_mask :=
    mask_and franchise_mask
      (mask_and
         (year_mask annotated (λ y, year relocation - 3 <=? y) df)
         (year_mask annotated (λ y, y <=? year relocation + 3) df)) in
  loc_assign era_mask (set_relocation_era (era_label relocation)) df.

Definition analyse_lineage (df : list AnalysisRow)
    (item : string * FranchiseLineage) : list AnalysisRow :=
  match relocations item.2 with
  | [] => df
  | first :: others =>
      let franchise_mask := franchise_mask annotated item.1 df in
      let df := mark_relocation annotated on_annotated item.1
                  (max_by_year first others) df in
      foldl (mark_era franchise_mask) df (relocations item.2)
  end.

Definition get_analysis_ready_data (self : Mapper) (df : list Row)
    : list AnalysisRow :=
  let mapped_data :=
    filter (λ r, is_Some (lahman_to_canonical self !! franchID r)) df in
  let mapped_data :=
    (λ r, {| annotated :=
               {| season := r;
                  canonical_franchise := lahman_to_canonical self !! franchID r;
                  is_relocated_franchise := false;
                  relocation_year := None;
                  pre_relocation := false;
                  post_relocation := false;
                  years_since_relocation := None |};
             relocation_era := "none" |}) <$> mapped_data in
  foldl analyse_lineage mapped_data (lineages self).

(** ** Validation findings *)

Inductive Status := Pass | Warning | Fail.

(** One entry of the [franchise_data_counts] evidence. *)
Record SeasonCounts := {
  counts_franchise : string;
  counts_relocation_year : Z;
  pre_seasons : Z;
  post_seasons : Z;
  sufficient_for_analysis : bool
}.

(** The [details] payloads the checks attach to a finding. *)
Inductive Details :=
  | NullCounts (null_counts : list (string * nat))
  | LowGameSeasons (records : list (Z * string * Z))
  | HighGameSeasons (records : list (Z * string * Z))
  | ImpossibleRecords (records : list (Z * string * float))
  | ExtremeSeasons (records : list (Z * string * string * float))
  | FranchiseDataCounts (counts : list SeasonCounts).

Record ValidationResult := {
  check_name : string;
  status : Status;
  message : string;
  details : option Details
}.

(** ** Tables with a column index

    The validation functions index the table by column name, and a name
    that is not in the index raises [KeyError]. A [DataFrame] is therefore
    its column index together with its rows; a field of a row is read
    through [column] or [item], which look the name up first. The cells
    of the integer and string columns always hold a value. *)

Record DataFrame := {
  columns : list string;
  rows : list Row
}.

(** [df[name]] *)
Definition column {A} (df : DataFrame) (name : string) (field : Row → A)
    : result (list A) :=
  if bool_decide (name ∈ columns df)
  then Ok (field <$> rows df)
  else Raise (KeyError name).

(** [row[name]] for a row of [df] *)
Definition item {A} (df : DataFrame) (name : string) (field : Row → A)
    (row : Row) : result A :=
  if bool_decide (name ∈ columns df)
  then Ok (field row)
  else Raise (KeyError name).

(** [df[mask]] *)
Definition where_ (df : DataFrame) (mask : list bool) : DataFrame :=
  {| columns := columns df; rows := select mask (rows df) |}.

(** [repr] of a list of strings, as an f-string prints it. *)
Definition repr_list (l : list string) : string :=
  "[" +:+ String.concat ", " ((λ s, "'" +:+ s +:+ "'") <$> l) +:+ "]".

(** [df[[name, ...]]]: the table of the listed columns. When some of
    them are missing pandas raises [KeyError] with a message that lists
    the missing ones, or says that none was found. *)
Definition getitem_list (df : DataFrame) (names : list string)
    : result DataFrame :=
  let not_found := filter (λ name, name ∉ columns df) names in
  if bool_decide (not_found = []) then
    Ok {| columns := names; rows := rows df |}
  else if bool_decide (length not_found = length names) then
    Raise (KeyError ("None of [Index(" +:+ repr_list names +:+
                     ", dtype='object')] are in the [columns]"))
  else Raise (KeyError (repr_list (remove_dups not_found) +:+ " not in index")).

(** [df.empty]: no rows, or no columns. *)
Definition empty (df : DataFrame) : bool :=
  bool_decide (rows df = []) || bool_decide (columns df = []).

(** [mask.sum()] and [len(df)] *)
Definition count_true (mask : list bool) : Z :=
  Z.of_nat (length (filter (λ b, b = true) mask)).

Definition len (df : DataFrame) : Z := Z.of_nat (length (rows df)).

(** [series.min()] and [series.max()] of an integer column; NaN, here
    [None], for an empty one. *)
Definition series_min (s : list Z) : option Z :=
  match s with
  | [] => None
  | x :: s' => Some (foldl Z.min x s')
  end.

Definition series_max (s : list Z) : option Z :=
  match s with
  | [] => None
  | x :: s' => Some (foldl Z.max x s')
  end.

(** Running a fallible step over a list, in order. *)
Fixpoint for_each {A B} (f : A → result (list B)) (l : list A)
    : result (list B) :=
  match l with
  | [] => Ok []
  | x :: l' =>
      found ← f x;
      more ← for_each f l';
      Ok (found ++ more)
  end.

(** ** [DataValidator] *)

Definition required_cols : list string :=
  ["yearID"; "teamID"; "franchID"; "lgID"; "name"; "W"; "L"; "G"; "W_pct"].

Definition critical_cols : list string := ["yearID"; "franchID"; "W"; "L"].

(** [df[col].isnull().sum()] for a critical column. The critical columns
    are the integer and identifier columns of the schema, whose cells
    always hold a value in a [Row]: there is no null to count. *)
Definition null_count (df : DataFrame) (col : string) : nat := 0.

(** The third block of [validate_basic_data_quality]. *)
Definition calculation_accuracy (df : DataFrame) : list ValidationResult :=
  if forallb (λ col, bool_decide (col ∈ columns df)) ["W"; "L"; "G"; "W_pct"]
  then
    let calculated_G := (λ r, W r + L r) <$> rows df in
    let calculated_W_pct :=
      zip_with (λ w g, PrimFloat.div (of_int64 w) (of_int64 g))
        (W <$> rows df) calculated_G in
    let g_mismatch :=
      zip_with (λ g c, 1 <? Z.abs (g - c)) (G <$> rows df) calculated_G in
    let pct_mismatch :=
      zip_with (λ p c, gtb (PrimFloat.abs (PrimFloat.sub p c)) 0.01%float)
        (W_pct <$> rows df) calculated_W_pct in
    let g_errors := count_true g_mismatch in
    let pct_errors := count_true pct_mismatch in
    if (0 <? g_errors) || (0 <? pct_errors)
    then [ {| check_name := "calculation_accuracy"; status := Warning;
              message := "Calculation mismatches: " +:+ str g_errors +:+
                         " games, " +:+ str pct_errors +:+ " win percentages";
              details := None |} ]
    else [ {| check_name := "calculation_accuracy"; status := Pass;
              message := "Win percentage calculations are accurate";
              details := None |} ]
  else [].

Definition validate_basic_data_quality (df : DataFrame)
    : list ValidationResult :=
  let missing_cols := filter (λ col, col ∉ columns df) required_cols in
  let results :=
    if bool_decide (missing_cols ≠ [])
    then [ {| check_name := "required_columns"; status := Fail;
              message := "Missing required columns: " +:+ repr_list missing_cols;
              details := None |} ]
    else [ {| check_name := "required_columns"; status := Pass;
              message := "All required columns present"; details := None |} ] in
  let null_counts :=
    omap (λ col,
            if bool_decide (col ∈ columns df)
            then if bool_decide (0 < null_count df col)%nat
                 then Some (col, null_count df col) else None
            else None)
         critical_cols in
  let results :=
    results ++
    if bool_decide (null_counts ≠ [])
    then [ {| check_name := "null_values"; status := Fail;
              message := "Null values found in critical columns";
              details := Some (NullCounts null_counts) |} ]
    else [ {| check_name := "null_values"; status := Pass;
              message := "No null values in critical columns";
              details := None |} ] in
  results ++ calculation_accuracy df.

(** The years the game-count check leaves out. *)
Definition strike_years : list Z := [1981; 1994; 2020].

(** [validate_historical_accuracy]; [current_year] is
    [datetime.now().year]. *)
Definition validate_historical_accuracy (current_year : Z) (df : DataFrame)
    : result (list ValidationResult) :=
  years ← column df "yearID" yearID;
  let min_year := series_min years in
  let max_year := series_max years in
  let year_low :=
    match min_year with
    | Some y =>
        if y <? 1871
        then [ {| check_name := "year_range"; status := Warning;
                  message := "Data includes years before 1871 (first professional season): " +:+ str y;
                  details := None |} ]
        else []
    | None => []
    end in
  let year_high :=
    match max_year with
    | Some y =>
        if current_year <? y
        then [ {| check_name := "year_range"; status := Fail;
                  message := "Data includes future years: " +:+ str y;
                  details := None |} ]
        else []
    | None => []
    end in
  let modern_era := where_ df ((λ y, 1961 <=? y) <$> years) in
  game_counts ←
    (if empty modern_era then Ok []
     else
       modern_years ← column modern_era "yearID" yearID;
       let normal_modern :=
         where_ modern_era
           ((λ y, negb (bool_decide (y ∈ strike_years))) <$> modern_years) in
       if empty normal_modern then Ok []
       else
         games ← column normal_modern "G" G;
         let low_games := where_ normal_modern ((λ g, g <? 160) <$> games) in
         let high_games := where_ normal_modern ((λ g, 164 <? g) <$> games) in
         low ←
           (if 0 <? len low_games
            then
              _ ← getitem_list low_games ["yearID"; "teamID"; "G"];
              Ok [ {| check_name := "game_counts"; status := Warning;
                      message := str (len low_games) +:+
                        " modern seasons with unusually low game counts";
                      details := Some (LowGameSeasons
                        ((λ r, (yearID r, teamID r, G r)) <$> rows low_games)) |} ]
            else Ok []);
         high ←
           (if 0 <? len high_games
            then
              _ ← getitem_list high_games ["yearID"; "teamID"; "G"];
              Ok [ {| check_name := "game_counts"; status := Warning;
                      message := str (len high_games) +:+
                        " modern seasons with unusually high game counts";
                      details := Some (HighGameSeasons
                        ((λ r, (yearID r, teamID r, G r)) <$> rows high_games)) |} ]
            else Ok []);
         Ok (low ++ high));
  pcts ← column df "W_pct" W_pct;
  let impossible_pct :=
    where_ df ((λ p, PrimFloat.ltb p 0%float || gtb p 1%float) <$> pcts) in
  impossible ←
    (if empty impossible_pct then Ok []
     else
       _ ← getitem_list impossible_pct ["yearID"; "teamID"; "W_pct"];
       Ok [ {| check_name := "win_percentages"; status := Fail;
               message := str (len impossible_pct) +:+
                 " seasons with impossible win percentages";
               details := Some (ImpossibleRecords
                 ((λ r, (yearID r, teamID r, W_pct r)) <$> rows impossible_pct)) |} ]);
  let extreme_records :=
    where_ df ((λ p, PrimFloat.ltb p 0.2%float || gtb p 0.8%float) <$> pcts) in
  extreme ←
    (if empty extreme_records then Ok []
     else
       _ ← getitem_list extreme_records ["yearID"; "teamID"; "name"; "W_pct"];
       Ok [ {| check_name := "extreme_records"; status := Warning;
               message := str (len extreme_records) +:+
                 " seasons with extreme win percentages (< 20% or > 80%)";
               details := Some (ExtremeSeasons
                 ((λ r, (yearID r, teamID r, name r, W_pct r))
                    <$> rows extreme_records)) |} ]);
  Ok (year_low ++ year_high ++ game_counts ++ impossible ++ extreme).

(** [df.sort_values('yearID')]: rows of the same year keep the order
    they have in the table. A row is put before the rows, all from
    behind it in the table, that are already in place when their year is
    not below its own. *)
Fixpoint insert_by_year (r : Row) (sorted : list Row) : list Row :=
  match sorted with
  | [] => [r]
  | x :: sorted' =>
      if yearID r <=? yearID x then r :: sorted
      else x :: insert_by_year r sorted'
  end.

Definition sort_values_by_year (df : DataFrame) : DataFrame :=
  {| columns := columns df; rows := foldr insert_by_year [] (rows df) |}.

(** [df[df['franchID'].isin(lineage.lahman_ids)]] *)
Definition franchise_rows (df : DataFrame) (lineage : FranchiseLineage)
    : result DataFrame :=
  ids ← column df "franchID" franchID;
  Ok (where_ df ((λ fid, bool_decide (fid ∈ lahman_ids lineage)) <$> ids)).

(** [df[df['yearID'] == y]] *)
Definition rows_of_year (df : DataFrame) (y : Z) : result DataFrame :=
  years ← column df "yearID" yearID;
  Ok (where_ df ((λ y', y' =? y) <$> years)).

(** The checks of one relocation boundary in
    [validate_franchise_continuity]. Both tables have the [yearID] column
    here, so they are empty exactly when they have no row; [iloc[0]] is
    the first row. *)
Definition continuity_at (canonical : string) (franchise_data : DataFrame)
    (relocation : RelocationEvent) : result (list ValidationResult) :=
  pre_reloc ← rows_of_year franchise_data (year relocation - 1);
  post_reloc ← rows_of_year franchise_data (year relocation);
  match rows pre_reloc, rows post_reloc with
  | pre :: _, post :: _ =>
      pre_fid ← item pre_reloc "franchID" franchID pre;
      post_fid ← item post_reloc "franchID" franchID post;
      let id_continuity :=
        if bool_decide (canonical = "ATL") &&
           (year relocation =? 1953) && bool_decide (pre_fid = post_fid)
        then [ {| check_name := "franchise_id_continuity"; status := Warning;
                  message := canonical +:+ ": franchID did not change at " +:+
                             str (year relocation) +:+ " relocation";
                  details := None |} ]
        else [] in
      pre_league ← item pre_reloc "lgID" lgID pre;
      post_league ← item post_reloc "lgID" lgID post;
      let league_continuity :=
        if bool_decide (pre_league ≠ post_league) &&
           bool_decide (canonical ≠ "HOU")
        then [ {| check_name := "league_continuity"; status := Warning;
                  message := canonical +:+ ": League changed from " +:+
                             pre_league +:+ " to " +:+ post_league +:+
                             " at " +:+ str (year relocation);
                  details := None |} ]
        else [] in
      Ok (id_continuity ++ league_continuity)
  | _, _ => Ok []
  end.

Definition validate_franchise_continuity (df : DataFrame) (mapper : Mapper)
    : result (list ValidationResult) :=
  for_each
    (λ kv : string * FranchiseLineage,
       franchise_data ← franchise_rows df kv.2;
       if empty franchise_data then Ok []
       else
         _ ← column franchise_data "yearID" yearID;
         let franchise_data := sort_values_by_year franchise_data in
         for_each (continuity_at kv.1 franchise_data) (relocations kv.2))
    (lineages mapper).

(** The facts of [validate_against_external_sources]:
    (year, teamID, expected wins, expected losses, description). *)
Definition known_facts : list (Z * string * Z * Z * string) := [
  (1906, "CHN", 116, 36, "Cubs record-setting season");
  (1962, "NYN", 40, 120, "Mets worst season");
  (2001, "SEA", 116, 46, "Mariners tied AL record");
  (1899, "CL4", 20, 134, "Cleveland Spiders worst record ever")
].

(** The check of one fact. *)
Definition check_fact (df : DataFrame) (fact : Z * string * Z * Z * string)
    : result (list ValidationResult) :=
  let '(fact_year, team_id, exp_w, exp_l, description) := fact in
  years ← column df "yearID" yearID;
  teams ← column df "teamID" teamID;
  let matching_rows :=
    where_ df (mask_and ((λ y, y =? fact_year) <$> years)
                        ((λ t, bool_decide (t = team_id)) <$> teams)) in
  match rows matching_rows with
  | [] =>
      Ok [ {| check_name := "historical_facts"; status := Warning;
              message := "Missing data for known historical fact: " +:+
                         description +:+ " (" +:+ str fact_year +:+ ")";
              details := None |} ]
  | row :: _ =>
      w ← item matching_rows "W" W row;
      l ← item matching_rows "L" L row;
      if negb (w =? exp_w) || negb (l =? exp_l)
      then Ok [ {| check_name := "historical_facts"; status := Fail;
                   message := "Historical fact mismatch: " +:+ description +:+
                              " - Expected " +:+ str exp_w +:+ "-" +:+ str exp_l +:+
                              ", got " +:+ str w +:+ "-" +:+ str l;
                   details := None |} ]
      else Ok [ {| check_name := "historical_facts"; status := Pass;
                   message := "Confirmed historical fact: " +:+ description;
                   details := None |} ]
  end.

Definition validate_against_external_sources (df : DataFrame)
    : result (list ValidationResult) :=
  for_each (check_fact df) known_facts.

(** [run_all_validations]: the four checks, in the order of the dict. *)
Definition run_all_validations (current_year : Z) (df : DataFrame)
    (mapper : Mapper) : result (list (string * list ValidationResult)) :=
  let basic_quality := validate_basic_data_quality df in
  historical_accuracy ← validate_historical_accuracy current_year df;
  franchise_continuity ← validate_franchise_continuity df mapper;
  external_validation ← validate_against_external_sources df;
  Ok [ ("basic_quality", basic_quality);
       ("historical_accuracy", historical_accuracy);
       ("franchise_continuity", franchise_continuity);
       ("external_validation", external_validation) ].

(** ** [check_data_completeness] *)

Definition MIN_SEASONS_PRE : Z := 10.
Definition MIN_SEASONS_POST : Z := 10.

(** One round of the loop over the lineages: the entry it appends to
    [insufficient_data], if any. *)
Definition completeness_entry (df : DataFrame)
    (kv : string * FranchiseLineage) : result (list SeasonCounts) :=
  match relocations kv.2 with
  | [] => Ok []
  | first :: others =>
      franchise_data ← franchise_rows df kv.2;
      if empty franchise_data then Ok []
      else
        let latest_relocation := max_by_year first others in
        years ← column franchise_data "yearID" yearID;
        let pre_reloc :=
          where_ franchise_data ((λ y, y <? year latest_relocation) <$> years) in
        let post_reloc :=
          where_ franchise_data ((λ y, year latest_relocation <=? y) <$> years) in
        let pre_count := len pre_reloc in
        let post_count := len post_reloc in
        if (pre_count <? MIN_SEASONS_PRE) || (post_count <? MIN_SEASONS_POST)
        then Ok [ {| counts_franchise := kv.1;
                     counts_relocation_year := year latest_relocation;
                     pre_seasons := pre_count;
                     post_seasons := post_count;
                     sufficient_for_analysis := false |} ]
        else Ok [ {| counts_franchise := kv.1;
                     counts_relocation_year := year latest_relocation;
                     pre_seasons := pre_count;
                     post_seasons := post_count;
                     sufficient_for_analysis := true |} ]
  end.

Definition check_data_completeness (df : DataFrame) (mapper : Mapper)
    : result (list ValidationResult) :=
  insufficient_data ← for_each (completeness_entry df) (lineages mapper);
  let insufficient_count :=
    Z.of_nat (length (filter (λ d, sufficient_for_analysis d = false)
                        insufficient_data)) in
  if 0 <? insufficient_count
  then Ok [ {| check_name := "statistical_sufficiency"; status := Warning;
               message := str insufficient_count +:+
                 " franchises have insufficient data for robust statistical analysis";
               details := Some (FranchiseDataCounts insufficient_data) |} ]
  else Ok [ {| check_name := "statistical_sufficiency"; status := Pass;
               message := "All relocated franchises have sufficient data for statistical analysis";
               details := None |} ].

(** ** Statistics of a float column *)

(** [series.mean()] and [series.var()] skip the nulls; the variance is
    the sample variance (one degree of freedom removed), NaN when fewer
    than two values remain. *)
Definition notnull_values (s : list float64) : list float64 :=
  filter (λ x, isnull x = false) s.

Definition fsum (s : list float64) : float64 := foldl fadd (of_Z 0) s.

Definition mean (s : list float64) : float64 :=
  let values := notnull_values s in
  fdiv (fsum values) (of_Z (Z.of_nat (length values))).

Definition var (s : list float64) : float64 :=
  let values := notnull_values s in
  let count := Z.of_nat (length values) in
  if count <=? 1 then NaN
  else
    let avg := fdiv (fsum values) (of_Z count) in
    let sqr := (λ x, fmul (fsub avg x) (fsub avg x)) <$> values in
    fdiv (fsum sqr) (of_Z (count - 1)).

(** ** [generate_relocation_summary] ([corrected_franchise_mapping.py]) *)

Record RelocationSummary := {
  summary_franchise : string;
  summary_current_name : string;
  summary_relocation_year : Z;
  summary_from_city : string;
  summary_to_city : string;
  total_seasons : Z;
  pre_relocation_seasons : Z;
  post_relocation_seasons : Z;
  pre_relocation_avg_wpct : option float64;
  post_relocation_avg_wpct : option float64;
  wpct_change : option float64;
  sufficient_data : bool
}.

(** The rows of a canonical franchise, and their pre and post parts. *)
Definition of_franchise (canonical : string) (df : list AnalysisRow)
    : list AnalysisRow :=
  filter (λ r, canonical_franchise (annotated r) = Some canonical) df.

Definition pre_rows (df : list AnalysisRow) : list AnalysisRow :=
  filter (λ r, pre_relocation (annotated r) = true) df.

Definition post_rows (df : list AnalysisRow) : list AnalysisRow :=
  filter (λ r, post_relocation (annotated r) = true) df.

Definition wpct (df : list AnalysisRow) : list float64 :=
  (λ r, exact (W_pct (season (annotated r)))) <$> df.

(** One round of the loop over the relocated franchises. The keys come
    from [get_relocated_franchises], so the lookup finds a lineage and
    its relocation list is not empty. *)
Definition relocation_summary (self : Mapper) (relocated_only : list AnalysisRow)
    (canonical : string) : list RelocationSummary :=
  let franchise_data := of_franchise canonical relocated_only in
  match franchise_data, get_franchise_info self canonical with
  | [], _ | _, None => []
  | _ :: _, Some lineage =>
      match relocations lineage with
      | [] => []
      | first :: others =>
          let latest_relocation := max_by_year first others in
          let pre_data := pre_rows franchise_data in
          let post_data := post_rows franchise_data in
          let pre_avg :=
            match pre_data with [] => None | _ => Some (mean (wpct pre_data)) end in
          let post_avg :=
            match post_data with [] => None | _ => Some (mean (wpct post_data)) end in
          [ {| summary_franchise := canonical;
               summary_current_name := current_name lineage;
               summary_relocation_year := year latest_relocation;
               summary_from_city := from_city latest_relocation;
               summary_to_city := to_city latest_relocation;
               total_seasons := Z.of_nat (length franchise_data);
               pre_relocation_seasons := Z.of_nat (length pre_data);
               post_relocation_seasons := Z.of_nat (length post_data);
               pre_relocation_avg_wpct := pre_avg;
               post_relocation_avg_wpct := post_avg;
               wpct_change :=
                 match pre_avg, post_avg with
                 | Some pre, Some post => Some (fsub post pre)
                 | _, _ => None
                 end;
               sufficient_data :=
                 (10 <=? Z.of_nat (length pre_data)) &&
                 (10 <=? Z.of_nat (length post_data)) |} ]
      end
  end.

Definition generate_relocation_summary (self : Mapper) (df : list Row)
    : list RelocationSummary :=
  let analysis_data := get_analysis_ready_data self df in
  let relocated_only :=
    filter (λ r, is_relocated_franchise (annotated r) = true) analysis_data in
  get_relocated_franchises self ≫= relocation_summary self relocated_only.

(** ** [validate_relocation_analysis_readiness]
       ([final_data_validation.py]) *)

Section effect_size.
(** [np.sqrt]; nothing is assumed of it. *)
Variable np_sqrt : float64 → float64.

(** The pooled standard deviation of the two samples. *)
Definition pooled_std (pre_data post_data : list float64) : float64 :=
  let n_pre := Z.of_nat (length pre_data) in
  let n_post := Z.of_nat (length post_data) in
  np_sqrt
    (fdiv (fadd (fmul (of_Z (n_pre - 1)) (var pre_data))
                (fmul (of_Z (n_post - 1)) (var post_data)))
          (of_Z (n_pre + n_post - 2))).

(** The band of an effect size. *)
Definition effect_magnitude (cohens_d : float64) : string :=
  if fgeb (fabs cohens_d) (of_Q (8 # 10)) then "large"
  else if fgeb (fabs cohens_d) (of_Q (5 # 10)) then "medium"
  else if fgeb (fabs cohens_d) (of_Q (2 # 10)) then "small"
  else "negligible".

(** The entries [effect_size] and [effect_magnitude] of a franchise:
    [None] when the block is skipped and the keys stay unset, otherwise
    the two values, where the effect size may be Python's [None]. *)
Definition effect (pre_data post_data : list float64)
    : option (option float64 * string) :=
  let pre_avg_wpct :=
    match pre_data with [] => None | _ => Some (mean pre_data) end in
  let post_avg_wpct :=
    match post_data with [] => None | _ => Some (mean post_data) end in
  match pre_avg_wpct, post_avg_wpct with
  | Some pre_avg, Some post_avg =>
      let pooled := pooled_std pre_data post_data in
      if fgtb pooled (of_Z 0)
      then
        let cohens_d := fdiv (fsub post_avg pre_avg) pooled in
        Some (Some cohens_d, effect_magnitude cohens_d)
      else Some (None, "unknown")
  | _, _ => None
  end.

(** The dict of one franchise. *)
Record FranchiseAnalysis := {
  analysis_franchise : string;
  analysis_name : string;
  analysis_relocation_year : Z;
  analysis_pre_seasons : Z;
  analysis_post_seasons : Z;
  pre_avg_wpct : option float64;
  post_avg_wpct : option float64;
  pre_std : option float64;
  post_std : option float64;
  sufficient_for_ttest : bool;
  analysis_years_since_relocation : option Z;
  effect_entries : option (option float64 * string)
}.

(** One round of the loop over the relocated franchises, on the table
    read from [team_seasons_analysis_ready.csv]. *)
Definition franchise_analysis (mapper : Mapper) (df : list AnalysisRow)
    (canonical : string) : list FranchiseAnalysis :=
  let franchise_data := of_franchise canonical df in
  match franchise_data, get_franchise_info mapper canonical with
  | [], _ | _, None => []
  | _ :: _, Some lineage =>
      match relocations lineage with
      | [] => []
      | first :: others =>
          let latest_relocation := max_by_year first others in
          let pre_data := pre_rows franchise_data in
          let post_data := post_rows franchise_data in
          [ {| analysis_franchise := canonical;
               analysis_name := current_name lineage;
               analysis_relocation_year := year latest_relocation;
               analysis_pre_seasons := Z.of_nat (length pre_data);
               analysis_post_seasons := Z.of_nat (length post_data);
               pre_avg_wpct :=
                 match pre_data with
                 | [] => None | _ => Some (mean (wpct pre_data)) end;
               post_avg_wpct :=
                 match post_data with
                 | [] => None | _ => Some (mean (wpct post_data)) end;
               pre_std :=
                 match pre_data with
                 | [] => None | _ => Some (np_sqrt (var (wpct pre_data))) end;
               post_std :=
                 match post_data with
                 | [] => None | _ => Some (np_sqrt (var (wpct post_data))) end;
               sufficient_for_ttest :=
                 (10 <=? Z.of_nat (length pre_data)) &&
                 (10 <=? Z.of_nat (length post_data));
               analysis_years_since_relocation :=
                 match post_data with
                 | [] => Some 0
                 | _ => series_max
                          (omap (λ r, years_since_relocation (annotated r))
                             post_data)
                 end;
               effect_entries := effect (wpct pre_data) (wpct post_data) |} ]
      end
  end.

Definition relocated_franchises_analysis (mapper : Mapper)
    (df : list AnalysisRow) : list FranchiseAnalysis :=
  get_relocated_franchises mapper ≫= franchise_analysis mapper df.
End effect_size.

(** ** The other queries of the mapper classes

    [is_relocated_franchise] is also the name of a column of the
    annotated table; the method lives in a module of its own. *)

Module MapperQueries.

(** [lineage is not None and len(lineage.relocations) > 0] *)
Definition is_relocated_franchise (self : Mapper) (canonical : string) : bool :=
  match get_franchise_info self canonical with
  | None => false
  | Some lineage => bool_decide (0 < length (relocations lineage))%nat
  end.

Definition get_relocation_years (self : Mapper) (canonical : string) : list Z :=
  match get_franchise_info self canonical with
  | None => []
  | Some lineage => year <$> relocations lineage
  end.

End MapperQueries.

(** ** [gather_mlb_wl.py]: loading the team seasons

    The text of [Teams.csv] and its conversion to numbers are outside the
    model: a [TeamsCsv.t] is the table as [load_lahman_teams] has it
    after the three conversion lines, with its stripped column names and,
    for each row, the seven cells the function goes on to use. *)

Module TeamsCsv.
Record row := {
  yearID : Z;
  teamID : string;
  franchID : string;
  lgID : string;
  name : string;
  W : Z;
  L : Z
}.

Record t := {
  columns : list string;
  rows : list row
}.
End TeamsCsv.

Definition REQUIRED_COLS : list string :=
  ["yearID"; "teamID"; "franchID"; "lgID"; "W"; "L"; "name"].

Definition missing_columns_message (missing : list string) : string :=
  "Lahman Teams.csv is missing required columns: " +:+ repr_list missing +:+
  ".
Please provide a Teams.csv from the Lahman database. Typical file has columns like:
yearID, teamID, franchID, lgID, W, L, name, park, attendance, etc.
Download the official Lahman CSV from Sean Lahman's site: https://seanlahman.com/baseball-archive/statistics/ or GitHub mirror and retry.".

(** [load_lahman_teams], from the column check on. *)
Definition load_lahman_teams (df : TeamsCsv.t) : result DataFrame :=
  let missing := filter (λ c, c ∉ TeamsCsv.columns df) REQUIRED_COLS in
  if bool_decide (missing ≠ [])
  then Raise (ValueError (missing_columns_message missing))
  else
    Ok {| columns :=
            ["yearID"; "teamID"; "franchID"; "lgID"; "name"; "W"; "L";
             "G"; "W_pct"];
          rows :=
            (λ r,
               let games := TeamsCsv.W r + TeamsCsv.L r in
               {| yearID := TeamsCsv.yearID r;
                  teamID := TeamsCsv.teamID r;
                  franchID := TeamsCsv.franchID r;
                  lgID := TeamsCsv.lgID r;
                  name := TeamsCsv.name r;
                  W := TeamsCsv.W r;
                  L := TeamsCsv.L r;
                  G := games;
                  W_pct :=
                    fillna 0%float
                      (round3 (PrimFloat.div (of_int64 (TeamsCsv.W r))
                                 (of_int64 games))) |})
            <$> TeamsCsv.rows df |}.

(** ** [enhanced_gather_mlb_wl.py]: loading with validation *)



(** ** The annotator, one record at a time

    The scripts annotate by masks over whole columns. The functions below
    say what the same assignments do to a single row; the properties
    section proves that the column-wise code computes exactly these. *)

Section relocation_columns_rowwise.
Context {A : Type}.
Variable get : A → AnnotatedRow.
Variable upd : (AnnotatedRow → AnnotatedRow) → A → A.

Definition in_franchise (canonical : string) (r : A) : bool :=
  bool_decide (canonical_franchise (get r) = Some canonical).

Definition mark_row (canonical : string)
    (latest_relocation : RelocationEvent) (r : A) : A :=
  let own := in_franchise canonical r in
  let r := if own then upd (set_is_relocated_franchise true) r else r in
  let r := if own
           then upd (set_relocation_year (Some (year latest_relocation))) r
           else r in
  let pre := own && (yearID (season (get r)) <? year latest_relocation) in
  let post := own && (year latest_relocation <=? yearID (season (get r))) in
  let r := if pre then upd (set_pre_relocation true) r else r in
  let r := if post then upd (set_post_relocation true) r else r in
  if post
  then upd (set_years_since_relocation
              (Some (yearID (season (get r)) - year latest_relocation))) r
  else r.
End relocation_columns_rowwise.

Definition annotate_row (r : AnnotatedRow) (item : string * FranchiseLineage)
    : AnnotatedRow :=
  match relocations item.2 with
  | [] => r
  | first :: others => mark_row id id item.1 (max_by_year first others) r
  end.

Definition era_row (own : bool) (r : AnalysisRow)
    (relocation : RelocationEvent) : AnalysisRow :=
  if own &&
     ((year relocation - 3 <=? yearID (season (annotated r))) &&
      (yearID (season (annotated r)) <=? year relocation + 3))
  then set_relocation_era (era_label relocation) r
  else r.

Definition analyse_row (r : AnalysisRow) (item : string * FranchiseLineage)
    : AnalysisRow :=
  match relocations item.2 with
  | [] => r
  | first :: others =>
      foldl (era_row (in_franchise annotated item.1 r))
        (mark_row annotated on_annotated item.1 (max_by_year first others) r)
        (relocations item.2)
  end.

(** The row a season starts from, before the loop over the lineages. *)
Definition default_row (mapping : gmap string string) (r : Row) : AnnotatedRow :=
  {| season := r;
     canonical_franchise := mapping !! franchID r;
     is_relocated_franchise := false;
     relocation_year := None;
     pre_relocation := false;
     post_relocation := false;
     years_since_relocation := None |}.

(** The relocated row of a season of year [y] with primary relocation
    year [split]. *)
Definition relocated_row (canonical : string) (split : Z) (r : Row)
    : AnnotatedRow :=
  {| season := r;
     canonical_franchise := Some canonical;
     is_relocated_franchise := true;
     relocation_year := Some split;
     pre_relocation := yearID r <? split;
     post_relocation := split <=? yearID r;
     years_since_relocation :=
       if split <=? yearID r then Some (yearID r - split) else None |}.

(** [d.get(k)] on the lineage table. *)
Fixpoint dict_get (canonical : string) (items : Lineages)
    : option FranchiseLineage :=
  match items with
  | [] => None
  | (k, l) :: items' =>
      if bool_decide (k = canonical) then Some l else dict_get canonical items'
  end.

(** The primary relocation year of a lineage, when it has relocated. *)
Definition primary_relocation_year (l : FranchiseLineage) : option Z :=
  match relocations l with
  | [] => None
  | first :: others => Some (year (max_by_year first others))
  end.

(** The annotation of one season: the per-record transform. *)
Definition annotate_season (table : Lineages) (mapping : gmap string string)
    (r : Row) : AnnotatedRow :=
  match mapping !! franchID r with
  | None => default_row mapping r
  | Some canonical =>
      match dict_get canonical table ≫= primary_relocation_year with
      | None => default_row mapping r
      | Some split => relocated_row canonical split r
      end
  end.

(** The era label of a season of a lineage: the label of the last
    relocation, in the order of the lineage's list, whose window of three
    years either side holds the year; ["none"] without one. *)
Definition era_of (relocs : list RelocationEvent) (y : Z) : string :=
  foldl (λ era relocation,
           if (year relocation - 3 <=? y) && (y <=? year relocation + 3)
           then era_label relocation else era)
        "none" relocs.

Definition analyse_season (table : Lineages) (mapping : gmap string string)
    (r : Row) : AnalysisRow :=
  {| annotated := annotate_season table mapping r;
     relocation_era :=
       match mapping !! franchID r ≫= λ c, dict_get c table with
       | None => "none"
       | Some l => era_of (relocations l) (yearID r)
       end |}.

(** [y] is the greatest relocation year of the lineage. *)
Definition is_max_relocation_year (l : FranchiseLineage) (y : Z) : Prop :=
  y ∈ year <$> relocations l ∧ ∀ y', y' ∈ year <$> relocations l → y' ≤ y.



(** ** Vocabulary for the validation properties *)

(** The rows a fact is about: its year and its team identifier. *)
Definition fact_rows (df : DataFrame) (fact_year : Z) (team_id : string)
    : list Row :=
  filter (λ r, yearID r = fact_year ∧ teamID r = team_id) (rows df).

(** What the check of a fact reports: decided by the first row of the
    fact's year and team. *)
Definition fact_finding (df : DataFrame) (fact : Z * string * Z * Z * string)
    (finding : ValidationResult) : Prop :=
  let '(fact_year, team_id, exp_w, exp_l, description) := fact in
  check_name finding = "historical_facts" ∧
  match fact_rows df fact_year team_id with
  | [] => status finding = Warning
  | row :: _ =>
      if bool_decide (W row = exp_w ∧ L row = exp_l)
      then status finding = Pass
      else status finding = Fail ∧
           ∃ before after,
             message finding =
               before +:+ "Expected " +:+ str exp_w +:+ "-" +:+ str exp_l
                 +:+ after
  end.

(** The two mismatches the calculation-accuracy check counts. *)
Definition games_off (r : Row) : Prop := 1 < Z.abs (G r - (W r + L r)).

Definition pct_off (r : Row) : Prop :=
  gtb (PrimFloat.abs
         (PrimFloat.sub (W_pct r)
            (PrimFloat.div (of_int64 (W r)) (of_int64 (W r + L r)))))
      0.01%float = true.

(** The seasons of a lineage in a table, and how many of them lie before
    a year and how many at or after it. *)
Definition franchise_seasons (df : DataFrame) (l : FranchiseLineage)
    : list Row :=
  filter (λ r, franchID r ∈ lahman_ids l) (rows df).

Definition seasons_before (df : DataFrame) (l : FranchiseLineage) (y : Z) : Z :=
  Z.of_nat (length (filter (λ r, yearID r < y) (franchise_seasons df l))).

Definition seasons_from (df : DataFrame) (l : FranchiseLineage) (y : Z) : Z :=
  Z.of_nat (length (filter (λ r, y ≤ yearID r) (franchise_seasons df l))).

(** The entry of a lineage in the evidence of the sufficiency check. *)
Definition season_counts (df : DataFrame) (kv : string * FranchiseLineage)
    : list SeasonCounts :=
  match primary_relocation_year kv.2 with
  | None => []
  | Some y =>
      if bool_decide (franchise_seasons df kv.2 = []) then []
      else [ {| counts_franchise := kv.1;
                counts_relocation_year := y;
                pre_seasons := seasons_before df kv.2 y;
                post_seasons := seasons_from df kv.2 y;
                sufficient_for_analysis :=
                  bool_decide (10 ≤ seasons_before df kv.2 y ∧
                               10 ≤ seasons_from df kv.2 y) |} ]
  end.

(** ** Vocabulary for the further properties *)

(** The year lies within three years of the relocation. *)
Definition in_era_window (relocation : RelocationEvent) (y : Z) : Prop :=
  year relocation - 3 ≤ y ≤ year relocation + 3.

(** The value [np.sqrt] is applied to in the pooled standard deviation. *)
Definition pooled_variance (pre_data post_data : list float64) : float64 :=
  let n_pre := Z.of_nat (length pre_data) in
  let n_post := Z.of_nat (length post_data) in
  fdiv (fadd (fmul (of_Z (n_pre - 1)) (var pre_data))
             (fmul (of_Z (n_post - 1)) (var post_data)))
       (of_Z (n_pre + n_post - 2)).

(** The sum of a list of rationals, from zero, left to right. *)
Definition Qcsum (qs : list Qc) : Qc := foldl Qcplus 0%Qc qs.


(** A stored win percentage below zero or above one. *)
Definition impossible_percentage (r : Row) : Prop :=
  PrimFloat.ltb (W_pct r) 0%float = true ∨ gtb (W_pct r) 1%float = true.



(** The season counts a row of the relocation summary reports, as an
    entry of the evidence of the sufficiency check. *)
Definition summary_counts (s : RelocationSummary) : SeasonCounts :=
  {| counts_franchise := summary_franchise s;
     counts_relocation_year := summary_relocation_year s;
     pre_seasons := pre_relocation_seasons s;
     post_seasons := post_relocation_seasons s;
     sufficient_for_analysis := sufficient_data s |}.

(** ** Example inputs *)



(** The value of a computation that is known not to raise. *)
Definition expect {A} (r : result A) (otherwise : A) : A :=
  match r with
  | Ok a => a
  | Raise _ => otherwise
  end.

(** [FranchiseMapper()] and [CorrectedFranchiseMapper()]: the objects the
    two constructors return. *)
Definition FranchiseMapper : Mapper :=
  expect (new_mapper FranchiseMapper_lineages)
    {| lineages := []; lahman_to_canonical := ∅ |}.

Definition CorrectedFranchiseMapper : Mapper :=
  expect (new_mapper CorrectedFranchiseMapper_lineages)
    {| lineages := []; lahman_to_canonical := ∅ |}.

(** A season of the Atlanta lineage in a given year. *)
Definition braves_season (y : Z) : Row :=
  {| yearID := y; teamID := "ATL"; franchID := "ATL"; lgID := "NL";
     name := "Braves"; W := 81; L := 81; G := 162; W_pct := 0.5%float |}.

(** The 1899 season of the Louisville Colonels, a franchise that neither
    table lists. *)
Definition colonels_1899 : Row :=
  {| yearID := 1899; teamID := "LS3"; franchID := "LOU"; lgID := "NL";
     name := "Louisville Colonels"; W := 75; L := 77; G := 156;
     W_pct := 0.493%float |}.

(** The two moves of the Braves. *)
Definition boston_to_milwaukee : RelocationEvent :=
  Build_RelocationEvent 1953 "Boston" "Milwaukee" "Boston Braves"
    "Milwaukee Braves" EmptyString.

Definition milwaukee_to_atlanta : RelocationEvent :=
  Build_RelocationEvent 1966 "Milwaukee" "Atlanta" "Milwaukee Braves"
    "Atlanta Braves" EmptyString.

(** The four seasons of the scenario with two relocations. *)
Definition braves_scenario : list Row :=
  [braves_season 1960; braves_season 1970; braves_season 1955;
   braves_season 1965].

(** The 1965 season before the loop over the relocations of its lineage
    sets an era. *)
Definition braves_1965_unlabelled : AnalysisRow :=
  {| annotated := relocated_row "ATL" 1966 (braves_season 1965);
     relocation_era := "none" |}.

(** The annotation of the 1970 season of the Braves. *)
Definition braves_1970_annotated : AnnotatedRow :=
  relocated_row "ATL" 1966 (braves_season 1970).

(** The Atlanta entry of the table of [corrected_franchise_mapping.py]. *)
Definition ATL_lineage : FranchiseLineage :=
  {| canonical_id := "ATL"; current_name := "Atlanta Braves";
     lahman_ids := ["ATL"];
     relocations :=
       [Build_RelocationEvent 1953 "Boston" "Milwaukee" "Boston Braves"
          "Milwaukee Braves" EmptyString;
        Build_RelocationEvent 1966 "Milwaukee" "Atlanta" "Milwaukee Braves"
          "Atlanta Braves" EmptyString];
     founded_year := 1876;
     notes := "Franchise moved twice: Boston (1876-1952) → Milwaukee (1953-1965) → Atlanta (1966-present)" |}.

(** A season of the Boston Red Sox, a lineage without relocation. *)
Definition red_sox_1967 : Row :=
  {| yearID := 1967; teamID := "BOS"; franchID := "BOS"; lgID := "AL";
     name := "Boston Red Sox"; W := 92; L := 70; G := 162;
     W_pct := 0.568%float |}.

(** The table of one row: the 1906 Cubs with 116 wins and [l] losses. *)
Definition cubs_1906 (l : Z) : DataFrame :=
  {| columns := required_cols;
     rows := [ {| yearID := 1906; teamID := "CHN"; franchID := "CHC";
                  lgID := "NL"; name := "Chicago Cubs"; W := 116; L := l;
                  G := 116 + l;
                  W_pct := PrimFloat.div (of_int64 116) (of_int64 (116 + l)) |} ] |}.

(** A table of one row with 120 wins, 50 losses and a stored win
    percentage of 0.95. *)
Definition inflated_pct : DataFrame :=
  {| columns := required_cols;
     rows := [ {| yearID := 1950; teamID := "AAA"; franchID := "AAA";
                  lgID := "AL"; name := "Example"; W := 120; L := 50;
                  G := 170; W_pct := 0.95%float |} ] |}.

(** The same row in a table that does not store the games. *)
Definition games_not_stored : DataFrame :=
  {| columns := ["yearID"; "teamID"; "franchID"; "lgID"; "name"; "W"; "L";
                 "W_pct"];
     rows := rows inflated_pct |}.

(** Rows at the tolerance of the win percentage: 13 wins in 25 games
    with a stored 0.51, and no win in one game with a stored 0.01. *)
Definition tie_at_tolerance : DataFrame :=
  {| columns := required_cols;
     rows := [ {| yearID := 1950; teamID := "AAA"; franchID := "AAA";
                  lgID := "AL"; name := "Example"; W := 13; L := 12;
                  G := 25; W_pct := 0.51%float |} ] |}.

Definition tie_below_tolerance : DataFrame :=
  {| columns := required_cols;
     rows := [ {| yearID := 1950; teamID := "AAA"; franchID := "AAA";
                  lgID := "AL"; name := "Example"; W := 0; L := 1;
                  G := 1; W_pct := 0.01%float |} ] |}.

(** Twenty consecutive seasons of the Dodgers lineage from a first year
    on; the lineage moved in 1958. *)
Definition dodgers_seasons (first_year : Z) : DataFrame :=
  {| columns := required_cols;
     rows := (λ y, {| yearID := y; teamID := "LAN"; franchID := "LAD";
                      lgID := "NL"; name := "Dodgers"; W := 77; L := 77;
                      G := 154; W_pct := 0.5%float |})
             <$> seqZ first_year 20 |}.

(** A square root to six decimals, exact on the squares of such numbers,
    to run the effect-size code on concrete samples. *)
Definition sqrt_six_decimals (x : float64) : float64 :=
  match x with
  | Finite q =>
      if bool_decide (q < 0)%Qc then NaN
      else of_Q (Z.sqrt (Qnum q * 10 ^ 12 / Z.pos (Qden q)) # 10 ^ 6)
  | PInf => PInf
  | NInf | NaN => NaN
  end.

(** Win percentages of three seasons before and three after a move. *)
Definition sample_pre : list float64 :=
  [of_Q (4 # 10); of_Q (5 # 10); of_Q (6 # 10)].

Definition sample_post : list float64 :=
  [of_Q (5 # 10); of_Q (6 # 10); of_Q (7 # 10)].

(** Samples without spread. *)
Definition sample_flat : list float64 := [of_Q (5 # 10); of_Q (5 # 10)].

(** A table with the seven columns the input schema requires and without
    the two optional ones, [G] and [W_pct]: the 1906 Cubs. *)
Definition minimal_schema_table : DataFrame :=
  {| columns := ["yearID"; "teamID"; "franchID"; "lgID"; "name"; "W"; "L"];
     rows := [ {| yearID := 1906; teamID := "CHN"; franchID := "CHC";
                  lgID := "NL"; name := "Chicago Cubs"; W := 116; L := 36;
                  G := 0; W_pct := nan |} ] |}.

(** A table without any column. *)
Definition no_columns_table : DataFrame := {| columns := []; rows := [] |}.

(** The example samples as rationals. *)
Definition sample_pre_values : list Qc :=
  [Q2Qc (4 # 10); Q2Qc (5 # 10); Q2Qc (6 # 10)].

Definition sample_post_values : list Qc :=
  [Q2Qc (5 # 10); Q2Qc (6 # 10); Q2Qc (7 # 10)].

(** The two seasons around the 1953 move of the Braves, under the
    franchise identifier ATL in both. *)
Definition braves_move_1953 : DataFrame :=
  {| columns := required_cols;
     rows := [braves_season 1952; braves_season 1953] |}.

(** The warning the continuity check gives for them. *)
Definition braves_1953_finding : ValidationResult :=
  {| check_name := "franchise_id_continuity"; status := Warning;
     message := "ATL: franchID did not change at 1953 relocation";
     details := None |}.

(** A table of one row with a stored win percentage of 1.2. *)
Definition impossible_pct_table : DataFrame :=
  {| columns := required_cols;
     rows := [ {| yearID := 1950; teamID := "AAA"; franchID := "AAA";
                  lgID := "AL"; name := "Example"; W := 120; L := 50;
                  G := 170; W_pct := 1.2%float |} ] |}.

(** What the historical check returns for it in 2025. *)
Definition impossible_pct_findings : list ValidationResult :=
  expect (validate_historical_accuracy 2025 impossible_pct_table) [].

(** The 1906 Cubs as [Teams.csv] has them, with an eighth column that
    the loader does not keep. *)
Definition cubs_1906_csv : TeamsCsv.t :=
  {| TeamsCsv.columns :=
       ["yearID"; "lgID"; "teamID"; "franchID"; "W"; "L"; "name"; "park"];
     TeamsCsv.rows :=
       [ {| TeamsCsv.yearID := 1906; TeamsCsv.teamID := "CHN";
            TeamsCsv.franchID := "CHC"; TeamsCsv.lgID := "NL";
            TeamsCsv.name := "Chicago Cubs";
            TeamsCsv.W := 116; TeamsCsv.L := 36 |} ] |}.

(** The row the loader makes of it: 116 wins in 152 games, 0.763. *)
Definition cubs_1906_loaded : Row :=
  {| yearID := 1906; teamID := "CHN"; franchID := "CHC"; lgID := "NL";
     name := "Chicago Cubs"; W := 116; L := 36; G := 152;
     W_pct := 0.763%float |}.

Definition cubs_1906_table : DataFrame :=
  {| columns := required_cols; rows := [cubs_1906_loaded] |}.
(** * Properties

    ** The identifier map *)

Lemma insert_pairs_app ps qs mapping :
  insert_pairs (ps ++ qs) mapping =
  (mapping' ← insert_pairs ps mapping; insert_pairs qs mapping').
Proof.
  revert mapping. induction ps as [|[x c] ps IH]; intros mapping; simpl.
  - done.
  - case_bool_decide; [done|]. apply IH.
Qed.

Lemma add_lahman_ids_flat canonical ids mapping :
  add_lahman_ids canonical ids mapping =
  insert_pairs ((λ lahman_id, (lahman_id, canonical)) <$> ids) mapping.
Proof.
  revert mapping. induction ids as [|x ids IH]; intros mapping; simpl.
  - done.
  - case_bool_decide; [done|]. apply IH.
Qed.

Lemma add_lineages_flat items mapping :
  add_lineages items mapping = insert_pairs (identifier_pairs items) mapping.
Proof.
  revert mapping. induction items as [|[c l] items IH]; intros mapping.
  - done.
  - unfold identifier_pairs. simpl. rewrite insert_pairs_app.
    rewrite add_lahman_ids_flat. simpl.
    destruct (insert_pairs _ mapping); simpl; [apply IH | done].
Qed.

Lemma identifier_pairs_fst items :
  (identifier_pairs items).*1 = all_identifiers items.
Proof.
  induction items as [|[c l] items IH]; [done|].
  unfold identifier_pairs, all_identifiers in *. cbn.
  rewrite fmap_app. f_equal; [|apply IH].
  rewrite <- list_fmap_compose. apply list_fmap_id.
Qed.

Lemma elem_of_identifier_pairs items x c :
  (x, c) ∈ identifier_pairs items ↔
  ∃ l, (c, l) ∈ items ∧ x ∈ lahman_ids l.
Proof.
  unfold identifier_pairs. rewrite list_elem_of_bind. split.
  - intros ([c' l] & Hx & Hin). apply list_elem_of_fmap in Hx as (y & Heq & Hy).
    simpl in *. inversion Heq; subst. eauto.
  - intros (l & Hin & Hx). exists (c, l). split; [|done].
    apply list_elem_of_fmap. eauto.
Qed.

Lemma elem_of_all_identifiers items x :
  x ∈ all_identifiers items ↔
  ∃ j b, items !! j = Some b ∧ x ∈ lahman_ids b.2.
Proof.
  unfold all_identifiers. rewrite list_elem_of_bind. split.
  - intros (b & Hx & Hin). apply list_elem_of_lookup in Hin as [j Hj]. eauto.
  - intros (j & b & Hj & Hx). exists b. split; [done|].
    apply list_elem_of_lookup. eauto.
Qed.

(** A successful run of the loop: the keys are pairwise different, none
    was in the map before, and the final map is the initial one extended
    with exactly the pairs of the list. *)
Lemma insert_pairs_Ok ps mapping mapping' :
  insert_pairs ps mapping = Ok mapping' →
  NoDup (ps.*1) ∧ (∀ x, x ∈ (ps.*1) → mapping !! x = None) ∧
  (∀ x c, mapping' !! x = Some c ↔
     (x, c) ∈ ps ∨ ((x ∉ ps.*1) ∧ mapping !! x = Some c)).
Proof.
  revert mapping. induction ps as [|[y d] ps IH]; intros mapping Hrun.
  - simpl in Hrun. inversion Hrun; subst. split; [constructor|].
    split; [by intros x Hx; apply elem_of_nil in Hx|].
    intros x c. rewrite elem_of_nil. split; [intros ?; right; split; [apply not_elem_of_nil|done] | by intros [[]|[_ ?]]].
  - simpl in Hrun. case_bool_decide as Hy; [done|].
    apply IH in Hrun as (Hnd & Hfresh & Hfinal).
    assert (mapping !! y = None) as Hnone.
    { destruct (mapping !! y) eqn:E; [|done]. exfalso. apply Hy. eauto. }
    assert (y ∉ (ps.*1)) as Hnotin.
    { intros Hin. apply Hfresh in Hin. by rewrite lookup_insert_eq in Hin. }
    split; [by constructor|]. split.
    + intros x [->|Hx]%elem_of_cons; [done|].
      specialize (Hfresh x Hx). destruct (decide (y = x)) as [->|Hne].
      * by rewrite lookup_insert_eq in Hfresh.
      * by rewrite lookup_insert_ne in Hfresh.
    + intros x c. rewrite Hfinal. simpl. rewrite !elem_of_cons.
      destruct (decide (y = x)) as [->|Hne].
      * rewrite lookup_insert_eq. split.
        -- intros [Hin|[_ Heq]]; [by left; right | left; left; congruence].
        -- intros [[Heq|Hin]|[Hn _]]; [right; split; [done|congruence]
             | by left | exfalso; apply Hn; by left].
      * rewrite lookup_insert_ne by done. split.
        -- intros [Hin|[Hn Hm]]; [by left; right|]. right. split; [|done].
           intros [->|?]; done.
        -- intros [[Heq|Hin]|[Hn Hm]]; [congruence | by left |].
           right. split; [|done]. intros ?. apply Hn. by right.
Qed.

(** A failing run of the loop names the first key that is met a second
    time (or was in the map from the start). *)
Lemma insert_pairs_Raise ps mapping e :
  insert_pairs ps mapping = Raise e →
  ∃ y before after,
    e = ValueError (duplicate_message y) ∧
    ps.*1 = before ++ y :: after ∧
    (y ∈ before ∨ is_Some (mapping !! y)) ∧
    NoDup before ∧ (∀ x, x ∈ before → mapping !! x = None).
Proof.
  revert mapping. induction ps as [|[y d] ps IH]; intros mapping Hrun.
  - done.
  - simpl in Hrun. case_bool_decide as Hy.
    + inversion Hrun; subst. exists y, [], ps.*1.
      split; [done|]. split; [done|]. split; [by right|].
      split; [constructor|]. by intros x Hx; apply elem_of_nil in Hx.
    + assert (mapping !! y = None) as Hnone.
      { destruct (mapping !! y) eqn:E; [|done]. exfalso. apply Hy. eauto. }
      apply IH in Hrun as (z & before & after & -> & Heq & Hdup & Hnd & Hfresh).
      assert (y ∉ before) as Hnotin.
      { intros Hin. apply Hfresh in Hin. by rewrite lookup_insert_eq in Hin. }
      exists z, (y :: before), after. split; [done|].
      split; [by rewrite fmap_cons, Heq|]. split; [|split].
      * destruct Hdup as [Hin|Hsome]; [by left; right|].
        destruct (decide (y = z)) as [->|Hne]; [by left; left|].
        rewrite lookup_insert_ne in Hsome by done. by right.
      * by constructor.
      * intros x [->|Hx]%elem_of_cons; [done|].
        specialize (Hfresh x Hx). destruct (decide (y = x)) as [->|Hne].
        -- by rewrite lookup_insert_eq in Hfresh.
        -- by rewrite lookup_insert_ne in Hfresh.
Qed.



(** Which exception the build raises, and when. *)
Lemma _build_lahman_mapping_Raise table e :
  _build_lahman_mapping table = Raise e →
  ∃ y before after,
    e = ValueError (duplicate_message y) ∧
    all_identifiers table = before ++ y :: after ∧
    y ∈ before ∧ NoDup before.
Proof.
  unfold _build_lahman_mapping. rewrite add_lineages_flat. intros Hrun.
  apply insert_pairs_Raise in Hrun
    as (y & before & after & -> & Heq & [Hin|Hsome] & Hnd & _).
  - rewrite identifier_pairs_fst in Heq. by exists y, before, after.
  - rewrite lookup_empty in Hsome. by destruct Hsome.
Qed.

Lemma _build_lahman_mapping_Ok table mapping :
  _build_lahman_mapping table = Ok mapping →
  NoDup (all_identifiers table) ∧
  ∀ x c, mapping !! x = Some c ↔ ∃ l, (c, l) ∈ table ∧ x ∈ lahman_ids l.
Proof.
  unfold _build_lahman_mapping. rewrite add_lineages_flat. intros Hrun.
  apply insert_pairs_Ok in Hrun as (Hnd & _ & Hfinal).
  rewrite identifier_pairs_fst in Hnd. split; [done|].
  intros x c. rewrite Hfinal, elem_of_identifier_pairs, lookup_empty.
  split; [intros [?|[_ ?]]; done | by left].
Qed.

Lemma _build_lahman_mapping_total table :
  NoDup (all_identifiers table) → ∃ mapping, _build_lahman_mapping table = Ok mapping.
Proof.
  intros Hnd. destruct (_build_lahman_mapping table) as [mapping|e] eqn:Hrun.
  - by exists mapping.
  - apply _build_lahman_mapping_Raise in Hrun
      as (y & before & after & _ & Heq & Hin & _).
    rewrite Heq in Hnd. apply NoDup_app in Hnd as (_ & Hnd & _).
    exfalso. apply (Hnd y Hin). by left.
Qed.

(** Both tables of the repository build without a collision. *)
Example FranchiseMapper_constructs :
  ∃ m, new_mapper FranchiseMapper_lineages = Ok m ∧
       get_canonical_franchise m "BSN" = Some "ATL" ∧
       get_canonical_franchise m "CHC" = None.
Proof. eexists. split; [vm_compute; reflexivity|]. by vm_compute. Qed.

Example CorrectedFranchiseMapper_constructs :
  ∃ m, new_mapper CorrectedFranchiseMapper_lineages = Ok m ∧
       get_canonical_franchise m "ATL" = Some "ATL" ∧
       get_canonical_franchise m "BSN" = None.
Proof. eexists. split; [vm_compute; reflexivity|]. by vm_compute. Qed.

(** The constructor fails with the exception of the build. *)
Lemma new_mapper_Raise table e :
  _build_lahman_mapping table = Raise e → new_mapper table = Raise e.
Proof. intros Hrun. unfold new_mapper. by rewrite Hrun. Qed.



(** ** The annotator: column-wise code and per-record transform *)

Lemma foldl_fmap_rows_at {A B I} (F : list B → I → list B)
    (f : A → B → I → B) (items : list I) (df : list A) (g : A → B) :
  (∀ g x, F (g <$> df) x = (λ r, f r (g r) x) <$> df) →
  foldl F (g <$> df) items = (λ r, foldl (f r) (g r) items) <$> df.
Proof.
  intros HF. revert g. induction items as [|x items IH]; intros g; simpl.
  - done.
  - rewrite HF. apply (IH (λ r, f r (g r) x)).
Qed.

Lemma foldl_fmap_rows {A B I} (F : list B → I → list B) (f : B → I → B)
    (g : A → B) (items : list I) (df : list A) :
  (∀ d x, F d x = (λ r, f r x) <$> d) →
  foldl F (g <$> df) items = (λ r, foldl f (g r) items) <$> df.
Proof.
  intros HF. apply (foldl_fmap_rows_at F (λ _, f)).
  intros h x. by rewrite HF, <- list_fmap_compose.
Qed.

Lemma mask_and_fmap {A} (p q : A → bool) (l : list A) :
  mask_and (p <$> l) (q <$> l) = (λ r, p r && q r) <$> l.
Proof. induction l as [|r l IH]; [done|]. cbn. f_equal. apply IH. Qed.

Lemma loc_assign_fmap {A B} (p : A → bool) (set : B → B) (h : A → B)
    (l : list A) :
  loc_assign (p <$> l) set (h <$> l) =
  (λ r, if p r then set (h r) else h r) <$> l.
Proof. induction l as [|r l IH]; [done|]. cbn. f_equal. apply IH. Qed.

Lemma loc_assign_series_fmap {A B V} (p : A → bool) (v : B → V)
    (set : V → B → B) (h : A → B) (l : list A) :
  loc_assign_series (p <$> l) (v <$> select (p <$> l) (h <$> l)) set (h <$> l) =
  (λ r, if p r then set (v (h r)) (h r) else h r) <$> l.
Proof.
  induction l as [|r l IH]; [done|]. cbn. destruct (p r); cbn; f_equal; apply IH.
Qed.

Section relocation_columns_facts.
Context {A : Type}.
Variable get : A → AnnotatedRow.
Variable upd : (AnnotatedRow → AnnotatedRow) → A → A.

Lemma mark_relocation_rows_at {B} canonical latest (h : B → A) (l : list B) :
  mark_relocation get upd canonical latest (h <$> l) =
  (λ r, mark_row get upd canonical latest (h r)) <$> l.
Proof.
  unfold mark_relocation, franchise_mask, year_mask. cbv zeta.
  repeat (rewrite <- ?list_fmap_compose, ?mask_and_fmap, ?loc_assign_fmap).
  rewrite loc_assign_series_fmap.
  apply list_fmap_ext. intros i r _. reflexivity.
Qed.

Lemma mark_relocation_rows canonical latest (df : list A) :
  mark_relocation get upd canonical latest df =
  mark_row get upd canonical latest <$> df.
Proof.
  rewrite <- (list_fmap_id df) at 1. apply mark_relocation_rows_at.
Qed.
End relocation_columns_facts.

Lemma annotate_lineage_rows df item :
  annotate_lineage df item = (λ r, annotate_row r item) <$> df.
Proof.
  unfold annotate_lineage, annotate_row.
  destruct (relocations item.2); [by rewrite list_fmap_id|].
  apply mark_relocation_rows.
Qed.

Lemma mark_era_rows {B} (own : B → bool) (h : B → AnalysisRow) (l : list B)
    relocation :
  mark_era (own <$> l) (h <$> l) relocation =
  (λ r, era_row (own r) (h r) relocation) <$> l.
Proof.
  unfold mark_era, year_mask.
  rewrite <- !list_fmap_compose, !mask_and_fmap, loc_assign_fmap.
  apply list_fmap_ext. intros i r _. reflexivity.
Qed.

Lemma analyse_lineage_rows df item :
  analyse_lineage df item = (λ r, analyse_row r item) <$> df.
Proof.
  unfold analyse_lineage, analyse_row.
  destruct (relocations item.2) as [|first others] eqn:Hrel;
    [by rewrite list_fmap_id|].
  cbv zeta. rewrite mark_relocation_rows. unfold franchise_mask.
  apply (foldl_fmap_rows_at
           (mark_era ((λ r, bool_decide (canonical_franchise (annotated r)
                                         = Some item.1)) <$> df))
           (λ r, era_row (in_franchise annotated item.1 r))).
  intros g x. apply mark_era_rows.
Qed.

Lemma create_annotated_dataset_rows df mapper :
  create_annotated_dataset df mapper =
  (λ r, foldl annotate_row (default_row (lahman_to_canonical mapper) r)
          (lineages mapper)) <$> df.
Proof.
  unfold create_annotated_dataset. cbv zeta.
  apply (foldl_fmap_rows annotate_lineage annotate_row).
  apply annotate_lineage_rows.
Qed.

Lemma get_analysis_ready_data_rows self df :
  get_analysis_ready_data self df =
  (λ r, foldl analyse_row
          {| annotated := default_row (lahman_to_canonical self) r;
             relocation_era := "none" |}
          (lineages self))
    <$> filter (λ r, is_Some (lahman_to_canonical self !! franchID r)) df.
Proof.
  unfold get_analysis_ready_data. cbv zeta.
  apply (foldl_fmap_rows analyse_lineage analyse_row).
  apply analyse_lineage_rows.
Qed.

(** *** What a round of the loop does to one row *)

Lemma annotate_row_other r item :
  canonical_franchise r ≠ Some item.1 → annotate_row r item = r.
Proof.
  intros Hne. unfold annotate_row. destruct (relocations item.2); [done|].
  unfold mark_row, in_franchise. cbn.
  by rewrite !(bool_decide_eq_false_2 (canonical_franchise r = _)) by done.
Qed.

Lemma annotate_row_default mapping r canonical l first others :
  mapping !! franchID r = Some canonical →
  relocations l = first :: others →
  annotate_row (default_row mapping r) (canonical, l) =
  relocated_row canonical (year (max_by_year first others)) r.
Proof.
  intros Hmap Hrel. unfold annotate_row. cbn. rewrite Hrel.
  unfold mark_row, in_franchise, default_row, relocated_row. cbn.
  rewrite Hmap.
  rewrite !(bool_decide_eq_true_2 (Some canonical = Some canonical)) by done.
  cbn.
  destruct (yearID r <? _) eqn:Hpre, (_ <=? yearID r) eqn:Hpost; cbn; done.
Qed.

Lemma foldl_annotate_row_other r (items : Lineages) :
  (∀ item, item ∈ items → canonical_franchise r ≠ Some item.1) →
  foldl annotate_row r items = r.
Proof.
  induction items as [|item items IH]; intros Hne; [done|]. simpl.
  rewrite annotate_row_other by (apply Hne; by left).
  apply IH. intros item' Hin. apply Hne. by right.
Qed.

Lemma dict_get_elem_of canonical l (items : Lineages) :
  NoDup (items.*1) → (canonical, l) ∈ items → dict_get canonical items = Some l.
Proof.
  induction items as [|[k l'] items IH]; intros Hnd Hin.
  - by apply elem_of_nil in Hin.
  - cbn in *. apply NoDup_cons in Hnd as [Hk Hnd].
    apply elem_of_cons in Hin as [Heq|Hin].
    + inversion Heq; subst. by rewrite bool_decide_eq_true_2.
    + case_bool_decide as Hkc; [|by apply IH]. subst k. exfalso. apply Hk.
      apply list_elem_of_fmap. by exists (canonical, l).
Qed.

Lemma dict_get_Some canonical l (items : Lineages) :
  dict_get canonical items = Some l → (canonical, l) ∈ items.
Proof.
  induction items as [|[k l'] items IH]; [done|]. cbn.
  case_bool_decide as Hkc.
  - intros [= ->]. subst k. by left.
  - intros Hget. right. by apply IH.
Qed.

(** The column-wise loop of [create_annotated_dataset] computes the
    per-record transform. *)
Lemma foldl_annotate_row_season (table : Lineages) mapping r :
  NoDup (table.*1) →
  foldl annotate_row (default_row mapping r) table =
  annotate_season table mapping r.
Proof.
  unfold annotate_season.
  destruct (mapping !! franchID r) as [canonical|] eqn:Hmap.
  - induction table as [|[k l] table IH]; intros Hnd; [done|].
    cbn in Hnd. apply NoDup_cons in Hnd as [Hk Hnd]. cbn.
    case_bool_decide as Hkc.
    + subst k. cbn. unfold primary_relocation_year.
      destruct (relocations l) as [|first others] eqn:Hrel.
      * unfold annotate_row at 2. cbn. rewrite Hrel.
        rewrite foldl_annotate_row_other; [done|].
        intros [k' l'] Hin. cbn. rewrite Hmap. intros [= ->].
        apply Hk. apply list_elem_of_fmap. by exists (k', l').
      * rewrite (annotate_row_default _ _ _ _ first others) by done.
        apply foldl_annotate_row_other.
        intros [k' l'] Hin. cbn. intros [= ->].
        apply Hk. apply list_elem_of_fmap. by exists (k', l').
    + rewrite annotate_row_other; [by apply IH|].
      cbn. rewrite Hmap. congruence.
  - intros _. apply foldl_annotate_row_other.
    intros item _. cbn. by rewrite Hmap.
Qed.

Lemma create_annotated_dataset_seasons df mapper :
  NoDup ((lineages mapper).*1) →
  create_annotated_dataset df mapper =
  annotate_season (lineages mapper) (lahman_to_canonical mapper) <$> df.
Proof.
  intros Hnd. rewrite create_annotated_dataset_rows.
  apply list_fmap_ext. intros i r _. by apply foldl_annotate_row_season.
Qed.

(** *** The same for [get_analysis_ready_data] *)

Lemma foldl_era_row a era relocs :
  foldl (era_row true) {| annotated := a; relocation_era := era |} relocs =
  {| annotated := a;
     relocation_era :=
       foldl (λ era relocation,
                if (year relocation - 3 <=? yearID (season a)) &&
                   (yearID (season a) <=? year relocation + 3)
                then era_label relocation else era)
             era relocs |}.
Proof.
  revert era. induction relocs as [|x relocs IH]; intros era; [done|].
  cbn. rewrite <- IH. f_equal. unfold era_row. cbn. by case_match.
Qed.

Lemma foldl_era_row_other r relocs : foldl (era_row false) r relocs = r.
Proof. induction relocs as [|x relocs IH]; [done|]. exact IH. Qed.

Lemma analyse_row_other r item :
  canonical_franchise (annotated r) ≠ Some item.1 → analyse_row r item = r.
Proof.
  intros Hne. unfold analyse_row.
  destruct (relocations item.2) as [|first others]; [done|].
  unfold mark_row, in_franchise.
  rewrite !(bool_decide_eq_false_2 (canonical_franchise (annotated r) = _))
    by done.
  cbn. apply foldl_era_row_other.
Qed.

Lemma analyse_row_default mapping r canonical l first others :
  mapping !! franchID r = Some canonical →
  relocations l = first :: others →
  analyse_row {| annotated := default_row mapping r; relocation_era := "none" |}
    (canonical, l) =
  {| annotated := relocated_row canonical (year (max_by_year first others)) r;
     relocation_era := era_of (relocations l) (yearID r) |}.
Proof.
  intros Hmap Hrel. unfold analyse_row. cbn [fst snd]. rewrite Hrel.
  assert (in_franchise annotated canonical
            {| annotated := default_row mapping r; relocation_era := "none" |}
          = true) as Hown.
  { unfold in_franchise. cbn. rewrite Hmap. by apply bool_decide_eq_true_2. }
  rewrite Hown.
  assert (mark_row annotated on_annotated canonical (max_by_year first others)
            {| annotated := default_row mapping r; relocation_era := "none" |} =
          {| annotated :=
               relocated_row canonical (year (max_by_year first others)) r;
             relocation_era := "none" |}) as ->.
  { unfold mark_row. rewrite Hown. unfold default_row, relocated_row. cbn.
    rewrite Hmap.
    destruct (yearID r <? _) eqn:Hpre, (_ <=? yearID r) eqn:Hpost; cbn; done. }
  by rewrite foldl_era_row.
Qed.

Lemma foldl_analyse_row_other r (items : Lineages) :
  (∀ item, item ∈ items → canonical_franchise (annotated r) ≠ Some item.1) →
  foldl analyse_row r items = r.
Proof.
  induction items as [|item items IH]; intros Hne; [done|]. simpl.
  rewrite analyse_row_other by (apply Hne; by left).
  apply IH. intros item' Hin. apply Hne. by right.
Qed.

Lemma foldl_analyse_row_season (table : Lineages) mapping r :
  NoDup (table.*1) →
  foldl analyse_row
    {| annotated := default_row mapping r; relocation_era := "none" |} table =
  analyse_season table mapping r.
Proof.
  unfold analyse_season, annotate_season.
  destruct (mapping !! franchID r) as [canonical|] eqn:Hmap.
  - induction table as [|[k l] table IH]; intros Hnd; [done|].
    cbn in Hnd. apply NoDup_cons in Hnd as [Hk Hnd]. cbn.
    case_bool_decide as Hkc.
    + subst k. cbn. unfold primary_relocation_year.
      destruct (relocations l) as [|first others] eqn:Hrel.
      * unfold analyse_row at 2. cbn. rewrite Hrel.
        rewrite foldl_analyse_row_other; [done|].
        intros [k' l'] Hin. cbn. rewrite Hmap. intros [= ->].
        apply Hk. apply list_elem_of_fmap. by exists (k', l').
      * rewrite (analyse_row_default _ _ _ _ first others) by done.
        rewrite Hrel. apply foldl_analyse_row_other.
        intros [k' l'] Hin. cbn. intros [= ->].
        apply Hk. apply list_elem_of_fmap. by exists (k', l').
    + rewrite analyse_row_other; [by apply IH|].
      cbn. rewrite Hmap. congruence.
  - intros _. apply foldl_analyse_row_other.
    intros item _. cbn. by rewrite Hmap.
Qed.

Lemma get_analysis_ready_data_seasons self df :
  NoDup ((lineages self).*1) →
  get_analysis_ready_data self df =
  analyse_season (lineages self) (lahman_to_canonical self)
    <$> filter (λ r, is_Some (lahman_to_canonical self !! franchID r)) df.
Proof.
  intros Hnd. rewrite get_analysis_ready_data_rows.
  apply list_fmap_ext. intros i r _. by apply foldl_analyse_row_season.
Qed.

(** *** The primary relocation year is the greatest year of the list *)

Lemma max_by_year_spec first others :
  max_by_year first others ∈ first :: others ∧
  ∀ x, x ∈ first :: others → year x ≤ year (max_by_year first others).
Proof.
  revert first. induction others as [|x others IH]; intros first; cbn.
  - split; [by left|]. intros x [->|[]%elem_of_nil]%elem_of_cons. lia.
  - destruct (IH (if year first <? year x then x else first)) as [Hin Hmax].
    split.
    + apply elem_of_cons in Hin as [->|Hin].
      * case_match; [right; left|left]; done.
      * by do 2 right.
    + intros z Hz.
      assert (year (if year first <? year x then x else first) ≤
              year (max_by_year (if year first <? year x then x else first)
                      others)) as Hbest by (apply Hmax; by left).
      apply elem_of_cons in Hz as [->|[->|Hz]%elem_of_cons].
      * destruct (Z.ltb_spec (year first) (year x)); lia.
      * destruct (Z.ltb_spec (year first) (year x)); lia.
      * apply Hmax. by right.
Qed.

(** *** Era windows *)

Lemma era_label_not_none relocation : era_label relocation ≠ "none".
Proof. done. Qed.

Lemma era_of_snoc relocs x y :
  era_of (relocs ++ [x]) y =
  if (year x - 3 <=? y) && (y <=? year x + 3) then era_label x
  else era_of relocs y.
Proof. unfold era_of. by rewrite foldl_app. Qed.

Lemma in_era_window_test x y :
  (year x - 3 <=? y) && (y <=? year x + 3) = true ↔ in_era_window x y.
Proof. unfold in_era_window. rewrite andb_true_iff, !Z.leb_le. done. Qed.

Lemma era_of_none relocs y :
  era_of relocs y = "none" ↔ ∀ x, x ∈ relocs → ¬ in_era_window x y.
Proof.
  induction relocs as [|x relocs IH] using rev_ind.
  - split; [by intros _ x ?%elem_of_nil|done].
  - rewrite era_of_snoc.
    destruct ((year x - 3 <=? y) && (y <=? year x + 3)) eqn:Hx.
    + split; [by intros ?%era_label_not_none|]. intros Hall. exfalso.
      apply (Hall x); [|by apply in_era_window_test].
      apply elem_of_app. right. by left.
    + rewrite IH. apply not_true_iff_false in Hx.
      rewrite in_era_window_test in Hx. split.
      * intros Hall z [Hz | ->%list_elem_of_singleton]%elem_of_app;
          [by apply Hall|done].
      * intros Hall z Hz. apply Hall. apply elem_of_app. by left.
Qed.

Lemma era_of_last relocs_before x relocs_after y :
  in_era_window x y →
  (∀ z, z ∈ relocs_after → ¬ in_era_window z y) →
  era_of (relocs_before ++ x :: relocs_after) y = era_label x.
Proof.
  intros Hx. induction relocs_after as [|z relocs_after IH] using rev_ind;
    intros Hafter.
  - rewrite era_of_snoc. apply in_era_window_test in Hx. by rewrite Hx.
  - rewrite app_comm_cons, app_assoc, era_of_snoc.
    assert ((year z - 3 <=? y) && (y <=? year z + 3) = false) as ->.
    { apply not_true_iff_false. rewrite in_era_window_test.
      apply Hafter. apply elem_of_app. right. by left. }
    apply IH. intros w Hw. apply Hafter. apply elem_of_app. by left.
Qed.


(** ** Properties of the annotated rows *)

Lemma FranchiseMapper_new :
  new_mapper FranchiseMapper_lineages = Ok FranchiseMapper.
Proof. by vm_compute. Qed.

Lemma CorrectedFranchiseMapper_new :
  new_mapper CorrectedFranchiseMapper_lineages = Ok CorrectedFranchiseMapper.
Proof. by vm_compute. Qed.

Lemma annotate_season_canonical table mapping r :
  canonical_franchise (annotate_season table mapping r) = mapping !! franchID r.
Proof.
  unfold annotate_season. destruct (mapping !! franchID r) eqn:Hmap; cbn.
  - by destruct (_ ≫= _).
  - done.
Qed.

Lemma annotate_season_season table mapping r :
  season (annotate_season table mapping r) = r.
Proof.
  unfold annotate_season. destruct (mapping !! franchID r); [|done].
  by destruct (_ ≫= _).
Qed.

Lemma annotate_season_relocated (table : Lineages) mapping r c l first others :
  NoDup (table.*1) → (c, l) ∈ table → relocations l = first :: others →
  mapping !! franchID r = Some c →
  annotate_season table mapping r =
  relocated_row c (year (max_by_year first others)) r.
Proof.
  intros Hnd Hin Hrel Hmap. unfold annotate_season. rewrite Hmap.
  rewrite (dict_get_elem_of c l) by done. cbn.
  unfold primary_relocation_year. by rewrite Hrel.
Qed.

Lemma annotate_season_stable (table : Lineages) mapping r c l :
  NoDup (table.*1) → (c, l) ∈ table → relocations l = [] →
  mapping !! franchID r = Some c →
  annotate_season table mapping r = default_row mapping r.
Proof.
  intros Hnd Hin Hrel Hmap. unfold annotate_season. rewrite Hmap.
  rewrite (dict_get_elem_of c l) by done. cbn.
  unfold primary_relocation_year. by rewrite Hrel.
Qed.

(** Every annotated row, of either script, is the per-record transform of
    an input row. *)
Lemma annotated_row_inv mapper df r :
  NoDup ((lineages mapper).*1) →
  r ∈ create_annotated_dataset df mapper ∨
  r ∈ annotated <$> get_analysis_ready_data mapper df →
  ∃ r0, r0 ∈ df ∧
    r = annotate_season (lineages mapper) (lahman_to_canonical mapper) r0.
Proof.
  intros Hnd [Hin|Hin].
  - rewrite create_annotated_dataset_seasons in Hin by done.
    apply list_elem_of_fmap in Hin as (r0 & -> & Hin). eauto.
  - rewrite get_analysis_ready_data_seasons in Hin by done.
    rewrite <- list_fmap_compose in Hin.
    apply list_elem_of_fmap in Hin as (r0 & -> & Hin).
    apply list_elem_of_filter in Hin as [_ Hin]. eauto.
Qed.

Lemma max_by_year_is_max l first others :
  relocations l = first :: others →
  is_max_relocation_year l (year (max_by_year first others)).
Proof.
  intros Hrel. destruct (max_by_year_spec first others) as [Hin Hmax].
  unfold is_max_relocation_year. rewrite Hrel. split.
  - apply list_elem_of_fmap. eauto.
  - intros y' (x & -> & Hx)%list_elem_of_fmap. by apply Hmax.
Qed.

(** C2. Both annotators keep the seasons in order,
    [create_annotated_dataset] all of them and [get_analysis_ready_data]
    those whose identifier the map resolves. In either output, a row
    whose identifier resolves to a lineage with at least one relocation
    has the canonical key of that lineage, is flagged as relocated and
    carries the greatest relocation year of the lineage; it has
    [pre_relocation] exactly when its year is below that year and
    [post_relocation] exactly when it is at or above it, so exactly one
    of the two is set; [years_since_relocation] is present exactly on the
    post rows, where it is the year minus that relocation year. *)
Theorem relocated_rows_partition (mapper : Mapper) (df : list Row) :
  NoDup ((lineages mapper).*1) →
  season <$> create_annotated_dataset df mapper = df ∧
  (λ r, season (annotated r)) <$> get_analysis_ready_data mapper df =
    filter (λ r, is_Some (lahman_to_canonical mapper !! franchID r)) df ∧
  ∀ r c l,
    r ∈ create_annotated_dataset df mapper ∨
    r ∈ annotated <$> get_analysis_ready_data mapper df →
    lahman_to_canonical mapper !! franchID (season r) = Some c →
    (c, l) ∈ lineages mapper →
    relocations l ≠ [] →
    canonical_franchise r = Some c ∧
    is_relocated_franchise r = true ∧
    ∃ split, is_max_relocation_year l split ∧
      relocation_year r = Some split ∧
      (pre_relocation r = true ↔ yearID (season r) < split) ∧
      (post_relocation r = true ↔ split ≤ yearID (season r)) ∧
      pre_relocation r = negb (post_relocation r) ∧
      years_since_relocation r =
        (if post_relocation r then Some (yearID (season r) - split) else None).
Proof.
  intros Hnd. split; [|split].
  - rewrite create_annotated_dataset_seasons by done.
    rewrite <- list_fmap_compose. rewrite <- (list_fmap_id df) at 2.
    apply list_fmap_ext. intros i r _. apply annotate_season_season.
  - rewrite get_analysis_ready_data_seasons by done.
    rewrite <- list_fmap_compose.
    rewrite <- (list_fmap_id (filter _ df)) at 2.
    apply list_fmap_ext. intros i r _. apply annotate_season_season.
  - intros r c l Hin Hc Hl Hrel.
    destruct (annotated_row_inv _ _ _ Hnd Hin) as (r0 & _ & ->).
    rewrite annotate_season_season in Hc.
    destruct (relocations l) as [|first others] eqn:Hrels; [done|].
    rewrite (annotate_season_relocated _ _ _ c l first others) by done.
    split; [done|]. split; [done|].
    exists (year (max_by_year first others)).
    split; [by apply max_by_year_is_max|]. cbn.
    rewrite Z.ltb_lt, Z.leb_le.
    split; [done|]. split; [done|]. split; [done|]. split; [|done].
    destruct (Z.ltb_spec (yearID r0) (year (max_by_year first others))),
      (Z.leb_spec (year (max_by_year first others)) (yearID r0)); cbn; lia.
Qed.

Lemma relocated_rows_partition_witness :
  season <$> create_annotated_dataset braves_scenario CorrectedFranchiseMapper
    = braves_scenario ∧
  (λ r, season (annotated r)) <$>
    get_analysis_ready_data CorrectedFranchiseMapper braves_scenario =
    filter (λ r, is_Some (lahman_to_canonical CorrectedFranchiseMapper
                            !! franchID r)) braves_scenario ∧
  ∀ r c l,
    r ∈ create_annotated_dataset braves_scenario CorrectedFranchiseMapper ∨
    r ∈ annotated <$>
          get_analysis_ready_data CorrectedFranchiseMapper braves_scenario →
    lahman_to_canonical CorrectedFranchiseMapper !! franchID (season r)
      = Some c →
    (c, l) ∈ lineages CorrectedFranchiseMapper →
    relocations l ≠ [] →
    canonical_franchise r = Some c ∧
    is_relocated_franchise r = true ∧
    ∃ split, is_max_relocation_year l split ∧
      relocation_year r = Some split ∧
      (pre_relocation r = true ↔ yearID (season r) < split) ∧
      (post_relocation r = true ↔ split ≤ yearID (season r)) ∧
      pre_relocation r = negb (post_relocation r) ∧
      years_since_relocation r =
        (if post_relocation r then Some (yearID (season r) - split) else None).
Proof.
  apply (relocated_rows_partition CorrectedFranchiseMapper braves_scenario).
  apply (bool_decide_unpack _). by vm_compute.
Defined.

Lemma analyse_season_relocated (table : Lineages) mapping r c l first others :
  NoDup (table.*1) → (c, l) ∈ table → relocations l = first :: others →
  mapping !! franchID r = Some c →
  analyse_season table mapping r =
  {| annotated := relocated_row c (year (max_by_year first others)) r;
     relocation_era := era_of (relocations l) (yearID r) |}.
Proof.
  intros Hnd Hin Hrel Hmap. unfold analyse_season.
  rewrite (annotate_season_relocated _ _ _ c l first others) by done.
  rewrite Hmap. cbn. by rewrite (dict_get_elem_of c l) by done.
Qed.

Lemma analyse_season_stable (table : Lineages) mapping r c l :
  NoDup (table.*1) → (c, l) ∈ table → relocations l = [] →
  mapping !! franchID r = Some c →
  analyse_season table mapping r =
  {| annotated := default_row mapping r; relocation_era := "none" |}.
Proof.
  intros Hnd Hin Hrel Hmap. unfold analyse_season.
  rewrite (annotate_season_stable _ _ _ c l) by done.
  rewrite Hmap. cbn. rewrite (dict_get_elem_of c l) by done.
  by rewrite Hrel.
Qed.

(** The four rows of the scenario, through the table of the repository,
    by either annotator. *)
Example braves_rows_annotated :
  (λ r, (yearID (season (annotated r)), canonical_franchise (annotated r),
         is_relocated_franchise (annotated r),
         pre_relocation (annotated r), post_relocation (annotated r),
         relocation_year (annotated r),
         years_since_relocation (annotated r), relocation_era r))
    <$> get_analysis_ready_data CorrectedFranchiseMapper braves_scenario =
  [(1960, Some "ATL", true, true, false, Some 1966, None, "none");
   (1970, Some "ATL", true, false, true, Some 1966, Some 4, "none");
   (1955, Some "ATL", true, true, false, Some 1966, None, "around_1953");
   (1965, Some "ATL", true, true, false, Some 1966, None, "around_1966")] ∧
  (λ r, (yearID (season r), canonical_franchise r, is_relocated_franchise r,
         pre_relocation r, post_relocation r, relocation_year r,
         years_since_relocation r))
    <$> create_annotated_dataset braves_scenario FranchiseMapper =
  [(1960, Some "ATL", true, true, false, Some 1966, None);
   (1970, Some "ATL", true, false, true, Some 1966, Some 4);
   (1955, Some "ATL", true, true, false, Some 1966, None);
   (1965, Some "ATL", true, true, false, Some 1966, None)].
Proof. split; by vm_compute. Qed.

(** C3, as stated, fails on its last clause: the year 1965 is not in the
    window of the 1953 relocation. The step of the loop for that
    relocation leaves the 1965 row without era and the step for 1966
    sets it, so nothing is overwritten; the two windows, 1950 to 1956
    and 1963 to 1969, share no year. *)
Lemma year_1965_in_one_window_only :
  relocations ATL_lineage = [boston_to_milwaukee; milwaukee_to_atlanta] ∧
  mark_era [true] [braves_1965_unlabelled] boston_to_milwaukee
    = [braves_1965_unlabelled] ∧
  relocation_era <$>
    mark_era [true] [braves_1965_unlabelled] milwaukee_to_atlanta
    = ["around_1966"] ∧
  ¬ in_era_window boston_to_milwaukee 1965 ∧
  ¬ ∃ y, in_era_window boston_to_milwaukee y ∧
         in_era_window milwaukee_to_atlanta y.
Proof.
  split; [done|]. split; [by vm_compute|]. split; [by vm_compute|].
  unfold in_era_window. cbn. split; [lia|]. intros (y & ? & ?). lia.
Qed.

(** C3, amended. [get_analysis_ready_data] keeps, in order, the seasons
    whose identifier the map resolves. A row whose identifier resolves
    to a lineage with the relocations of 1953 and 1966, in this order,
    has 1966 as relocation year and split: it is pre-relocation exactly
    below 1966 and post-relocation from 1966 on, with the years since
    1966; so a row of 1960 is pre-relocation and a row of 1970 is
    post-relocation with four years since the relocation. Its era is
    [around_1953] exactly for the years 1950 to 1956, [around_1966]
    exactly for the years 1963 to 1969, and [none] otherwise: a row of
    1955 is in the era [around_1953], and a row of 1965 in the era
    [around_1966], the only window it lies in. For any lineage, a row in
    the window of a relocation and in no window of a relocation listed
    after it has the era of that relocation: where windows overlap, the
    relocation listed last wins. *)
Theorem two_relocations_split_and_eras (mapper : Mapper) (df : list Row) :
  NoDup ((lineages mapper).*1) →
  (λ r, season (annotated r)) <$> get_analysis_ready_data mapper df =
    filter (λ r, is_Some (lahman_to_canonical mapper !! franchID r)) df ∧
  (∀ r c l,
     r ∈ get_analysis_ready_data mapper df →
     lahman_to_canonical mapper !! franchID (season (annotated r)) = Some c →
     (c, l) ∈ lineages mapper →
     year <$> relocations l = [1953; 1966] →
     canonical_franchise (annotated r) = Some c ∧
     is_relocated_franchise (annotated r) = true ∧
     relocation_year (annotated r) = Some 1966 ∧
     (pre_relocation (annotated r) = true ↔
      yearID (season (annotated r)) < 1966) ∧
     (post_relocation (annotated r) = true ↔
      1966 ≤ yearID (season (annotated r))) ∧
     years_since_relocation (annotated r) =
       (if post_relocation (annotated r)
        then Some (yearID (season (annotated r)) - 1966) else None) ∧
     (yearID (season (annotated r)) = 1960 →
        pre_relocation (annotated r) = true ∧
        post_relocation (annotated r) = false) ∧
     (yearID (season (annotated r)) = 1970 →
        post_relocation (annotated r) = true ∧
        pre_relocation (annotated r) = false ∧
        years_since_relocation (annotated r) = Some 4) ∧
     (yearID (season (annotated r)) = 1955 →
        relocation_era r = "around_1953") ∧
     (yearID (season (annotated r)) = 1965 →
        relocation_era r = "around_1966") ∧
     (relocation_era r = "around_1953" ↔
      1950 ≤ yearID (season (annotated r)) ≤ 1956) ∧
     (relocation_era r = "around_1966" ↔
      1963 ≤ yearID (season (annotated r)) ≤ 1969) ∧
     (relocation_era r = "none" ↔
      ¬ 1950 ≤ yearID (season (annotated r)) ≤ 1956 ∧
      ¬ 1963 ≤ yearID (season (annotated r)) ≤ 1969)) ∧
  (∀ r c l relocs_before x relocs_after,
     r ∈ get_analysis_ready_data mapper df →
     lahman_to_canonical mapper !! franchID (season (annotated r)) = Some c →
     (c, l) ∈ lineages mapper →
     relocations l = relocs_before ++ x :: relocs_after →
     in_era_window x (yearID (season (annotated r))) →
     (∀ z, z ∈ relocs_after →
        ¬ in_era_window z (yearID (season (annotated r)))) →
     relocation_era r = era_label x).
Proof.
  intros Hnd. split; [|split].
  - rewrite get_analysis_ready_data_seasons by done.
    rewrite <- list_fmap_compose.
    rewrite <- (list_fmap_id (filter _ df)) at 2.
    apply list_fmap_ext. intros i r _. apply annotate_season_season.
  - intros r c l Hin Hc Hl Hyears.
    rewrite get_analysis_ready_data_seasons in Hin by done.
    apply list_elem_of_fmap in Hin as (r0 & -> & _).
    unfold analyse_season in Hc. cbn in Hc.
    rewrite annotate_season_season in Hc.
    destruct (relocations l) as [|e1 [|e2 [|e3 others]]] eqn:Hrel; try done.
    cbn in Hyears. injection Hyears as Hy1 Hy2.
    rewrite (analyse_season_relocated _ _ _ c l e1 [e2]) by done.
    rewrite Hrel. unfold era_of, era_label. cbn.
    rewrite ?Hy1, ?Hy2. cbn. rewrite ?Hy1, ?Hy2.
    rewrite Z.ltb_lt, Z.leb_le.
    split; [done|]. split; [done|]. split; [done|].
    split; [done|]. split; [done|]. split; [done|].
    split; [intros Hy; rewrite Hy; by split|].
    split; [intros Hy; rewrite Hy; by repeat split|].
    split; [intros Hy; rewrite Hy; reflexivity|].
    split; [intros Hy; rewrite Hy; reflexivity|].
    destruct (Z.leb_spec (1966 - 3) (yearID r0)),
      (Z.leb_spec (yearID r0) (1966 + 3)),
      (Z.leb_spec (1953 - 3) (yearID r0)),
      (Z.leb_spec (yearID r0) (1953 + 3)); cbn;
      (split; [|split]); split; done || lia.
  - intros r c l relocs_before x relocs_after Hin Hc Hl Hrel Hx Hafter.
    rewrite get_analysis_ready_data_seasons in Hin by done.
    apply list_elem_of_fmap in Hin as (r0 & -> & _).
    unfold analyse_season in *. cbn in *.
    rewrite annotate_season_season in Hc, Hx, Hafter.
    rewrite Hc. cbn. rewrite (dict_get_elem_of c l) by done.
    rewrite Hrel. by apply era_of_last.
Qed.

Lemma two_relocations_split_and_eras_witness :
  (λ r, season (annotated r)) <$> get_analysis_ready_data CorrectedFranchiseMapper braves_scenario =
    filter (λ r, is_Some (lahman_to_canonical CorrectedFranchiseMapper !! franchID r)) braves_scenario ∧
  (∀ r c l,
     r ∈ get_analysis_ready_data CorrectedFranchiseMapper braves_scenario →
     lahman_to_canonical CorrectedFranchiseMapper !! franchID (season (annotated r)) = Some c →
     (c, l) ∈ lineages CorrectedFranchiseMapper →
     year <$> relocations l = [1953; 1966] →
     canonical_franchise (annotated r) = Some c ∧
     is_relocated_franchise (annotated r) = true ∧
     relocation_year (annotated r) = Some 1966 ∧
     (pre_relocation (annotated r) = true ↔
      yearID (season (annotated r)) < 1966) ∧
     (post_relocation (annotated r) = true ↔
      1966 ≤ yearID (season (annotated r))) ∧
     years_since_relocation (annotated r) =
       (if post_relocation (annotated r)
        then Some (yearID (season (annotated r)) - 1966) else None) ∧
     (yearID (season (annotated r)) = 1960 →
        pre_relocation (annotated r) = true ∧
        post_relocation (annotated r) = false) ∧
     (yearID (season (annotated r)) = 1970 →
        post_relocation (annotated r) = true ∧
        pre_relocation (annotated r) = false ∧
        years_since_relocation (annotated r) = Some 4) ∧
     (yearID (season (annotated r)) = 1955 →
        relocation_era r = "around_1953") ∧
     (yearID (season (annotated r)) = 1965 →
        relocation_era r = "around_1966") ∧
     (relocation_era r = "around_1953" ↔
      1950 ≤ yearID (season (annotated r)) ≤ 1956) ∧
     (relocation_era r = "around_1966" ↔
      1963 ≤ yearID (season (annotated r)) ≤ 1969) ∧
     (relocation_era r = "none" ↔
      ¬ 1950 ≤ yearID (season (annotated r)) ≤ 1956 ∧
      ¬ 1963 ≤ yearID (season (annotated r)) ≤ 1969)) ∧
  (∀ r c l relocs_before x relocs_after,
     r ∈ get_analysis_ready_data CorrectedFranchiseMapper braves_scenario →
     lahman_to_canonical CorrectedFranchiseMapper !! franchID (season (annotated r)) = Some c →
     (c, l) ∈ lineages CorrectedFranchiseMapper →
     relocations l = relocs_before ++ x :: relocs_after →
     in_era_window x (yearID (season (annotated r))) →
     (∀ z, z ∈ relocs_after →
        ¬ in_era_window z (yearID (season (annotated r)))) →
     relocation_era r = era_label x).
Proof.
  apply (two_relocations_split_and_eras CorrectedFranchiseMapper
           braves_scenario).
  apply (bool_decide_unpack _). by vm_compute.
Defined.






(** ** The validation engine *)

Lemma select_fmap {A} (p : A → bool) (l : list A) :
  select (p <$> l) l = filter (λ r, p r = true) l.
Proof.
  induction l as [|r l IH]; [done|]. rewrite fmap_cons.
  change (select (p r :: (p <$> l)) (r :: l))
    with (if p r then r :: select (p <$> l) l else select (p <$> l) l).
  rewrite IH. destruct (p r) eqn:Hp.
  - by rewrite filter_cons_True.
  - by rewrite filter_cons_False by congruence.
Qed.

Lemma column_Ok {A} df col (field : Row → A) :
  col ∈ columns df → column df col field = Ok (field <$> rows df).
Proof. intros Hin. unfold column. by rewrite bool_decide_eq_true_2. Qed.

Lemma item_Ok {A} df col (field : Row → A) row :
  col ∈ columns df → item df col field row = Ok (field row).
Proof. intros Hin. unfold item. by rewrite bool_decide_eq_true_2. Qed.

Lemma for_each_Ok {A B} (f : A → result (list B)) (g : A → list B) l :
  (∀ x, x ∈ l → f x = Ok (g x)) → for_each f l = Ok (l ≫= g).
Proof.
  induction l as [|x l IH]; intros Hf; [done|]. cbn.
  rewrite Hf by (by left). cbn. rewrite IH; [done|].
  intros y Hy. apply Hf. by right.
Qed.

Lemma string_app_assoc (a b c : string) : (a +:+ b) +:+ c = a +:+ b +:+ c.
Proof.
  induction a as [|x a IH]; [done|].
  change (String x ((a +:+ b) +:+ c) = String x (a +:+ b +:+ c)).
  by rewrite IH.
Qed.

Lemma check_fact_rows df fact_year team_id exp_w exp_l description :
  "yearID" ∈ columns df → "teamID" ∈ columns df →
  check_fact df (fact_year, team_id, exp_w, exp_l, description) =
  match fact_rows df fact_year team_id with
  | [] =>
      Ok [ {| check_name := "historical_facts"; status := Warning;
              message := "Missing data for known historical fact: " +:+
                         description +:+ " (" +:+ str fact_year +:+ ")";
              details := None |} ]
  | row :: _ =>
      w ← item df "W" W row;
      l ← item df "L" L row;
      if negb (w =? exp_w) || negb (l =? exp_l)
      then Ok [ {| check_name := "historical_facts"; status := Fail;
                   message := "Historical fact mismatch: " +:+ description +:+
                              " - Expected " +:+ str exp_w +:+ "-" +:+ str exp_l +:+
                              ", got " +:+ str w +:+ "-" +:+ str l;
                   details := None |} ]
      else Ok [ {| check_name := "historical_facts"; status := Pass;
                   message := "Confirmed historical fact: " +:+ description;
                   details := None |} ]
  end.
Proof.
  intros Hy Ht. unfold check_fact. rewrite !column_Ok by done.
  cbn [mbind result_bind where_ rows columns].
  unfold item. cbn [where_ columns].
  rewrite <- !list_fmap_compose, mask_and_fmap, select_fmap.
  assert (filter (λ r, (yearID r =? fact_year) && bool_decide (teamID r = team_id)
                       = true) (rows df) = fact_rows df fact_year team_id) as Hrows.
  { unfold fact_rows. apply list_filter_iff. intros r.
    rewrite andb_true_iff, Z.eqb_eq, bool_decide_eq_true. done. }
  unfold compose. by rewrite Hrows.
Qed.

Lemma check_fact_finding df fact :
  "yearID" ∈ columns df → "teamID" ∈ columns df →
  "W" ∈ columns df → "L" ∈ columns df →
  ∃ finding, check_fact df fact = Ok [finding] ∧ fact_finding df fact finding.
Proof.
  destruct fact as [[[[fact_year team_id] exp_w] exp_l] description].
  intros Hy Ht Hw Hl. rewrite check_fact_rows by done. unfold fact_finding.
  destruct (fact_rows df fact_year team_id) as [|row others].
  - eexists. split; [done|]. done.
  - rewrite !item_Ok by done. cbn.
    destruct (Z.eqb_spec (W row) exp_w) as [Hweq|Hwne];
      destruct (Z.eqb_spec (L row) exp_l) as [Hleq|Hlne]; cbn;
      eexists; (split; [done|]); cbn; (split; [done|]).
    + by rewrite bool_decide_eq_true_2.
    + rewrite bool_decide_eq_false_2 by (intros []; done).
      split; [done|].
      exists ("Historical fact mismatch: " +:+ description +:+ " - "),
        (", got " +:+ str (W row) +:+ "-" +:+ str (L row)).
      by rewrite !string_app_assoc.
    + rewrite bool_decide_eq_false_2 by (intros []; done).
      split; [done|].
      exists ("Historical fact mismatch: " +:+ description +:+ " - "),
        (", got " +:+ str (W row) +:+ "-" +:+ str (L row)).
      by rewrite !string_app_assoc.
    + rewrite bool_decide_eq_false_2 by (intros []; done).
      split; [done|].
      exists ("Historical fact mismatch: " +:+ description +:+ " - "),
        (", got " +:+ str (W row) +:+ "-" +:+ str (L row)).
      by rewrite !string_app_assoc.
Qed.

Lemma for_each_Forall2 {A B} (f : A → result (list B)) (P : A → B → Prop) l :
  (∀ x, x ∈ l → ∃ y, f x = Ok [y] ∧ P x y) →
  ∃ ys, for_each f l = Ok ys ∧ Forall2 P l ys.
Proof.
  induction l as [|x l IH]; intros Hf.
  - exists []. by split.
  - destruct (Hf x) as (y & Hy & HP); [by left|].
    destruct IH as (ys & Hys & HPs); [intros z Hz; apply Hf; by right|].
    exists (y :: ys). cbn. rewrite Hy. cbn. rewrite Hys. cbn.
    split; [done|]. by constructor.
Qed.

(** C6. On a table with the four columns the check reads, every fact of
    the fixed list gets one finding, in order: a warning when no row has
    the fact's year and team, and otherwise, by the first such row, a pass
    when wins and losses both equal the expected values and a fail whose
    message cites the expected record when either differs. The 1906 Cubs
    row with 116 wins and 36 losses gives a pass for its fact; with 40
    losses it gives a fail citing 116-36. *)
Theorem external_facts_three_way :
  (∀ df : DataFrame,
     "yearID" ∈ columns df → "teamID" ∈ columns df →
     "W" ∈ columns df → "L" ∈ columns df →
     ∃ findings,
       validate_against_external_sources df = Ok findings ∧
       Forall2 (fact_finding df) known_facts findings) ∧
  (∃ finding others,
     validate_against_external_sources (cubs_1906 36) = Ok (finding :: others) ∧
     status finding = Pass) ∧
  (∃ finding others,
     validate_against_external_sources (cubs_1906 40) = Ok (finding :: others) ∧
     status finding = Fail ∧
     message finding =
       "Historical fact mismatch: Cubs record-setting season - Expected 116-36, got 116-40").
Proof.
  split; [|split].
  - intros df Hy Ht Hw Hl. unfold validate_against_external_sources.
    apply for_each_Forall2. intros fact _. by apply check_fact_finding.
  - do 2 eexists. split; [by vm_compute|done].
  - do 2 eexists. split; [by vm_compute|]. by split.
Qed.

Lemma external_facts_three_way_witness :
  ∃ findings,
    validate_against_external_sources (cubs_1906 40) = Ok findings ∧
    Forall2 (fact_finding (cubs_1906 40)) known_facts findings.
Proof.
  apply (proj1 external_facts_three_way (cubs_1906 40));
    apply (bool_decide_unpack _); by vm_compute.
Defined.

(** ** Calculation accuracy *)

Lemma zip_with_fmap {A B C D} (f : B → C → D) (g : A → B) (h : A → C)
    (l : list A) :
  zip_with f (g <$> l) (h <$> l) = (λ r, f (g r) (h r)) <$> l.
Proof. induction l as [|r l IH]; [done|]. cbn. f_equal. apply IH. Qed.

Lemma count_true_pos {A} (p : A → bool) (l : list A) :
  (0 <? count_true (p <$> l)) = true ↔ Exists (λ r, p r = true) l.
Proof.
  unfold count_true. rewrite Z.ltb_lt.
  induction l as [|r l IH].
  - rewrite Exists_nil. cbn. lia.
  - rewrite fmap_cons, Exists_cons. destruct (p r) eqn:Hp.
    + rewrite filter_cons_True by done. rewrite length_cons.
      split; [by left|lia].
    + rewrite filter_cons_False by congruence. rewrite IH.
      split; [by right|]. intros [?|?]; [congruence|done].
Qed.

Lemma calculation_accuracy_status df :
  "W" ∈ columns df → "L" ∈ columns df →
  "G" ∈ columns df → "W_pct" ∈ columns df →
  ∃ finding,
    calculation_accuracy df = [finding] ∧
    check_name finding = "calculation_accuracy" ∧
    (Exists (λ r, games_off r ∨ pct_off r) (rows df) → status finding = Warning) ∧
    (¬ Exists (λ r, games_off r ∨ pct_off r) (rows df) → status finding = Pass).
Proof.
  intros Hw Hl Hg Hp. unfold calculation_accuracy. cbn [forallb].
  rewrite !bool_decide_eq_true_2 by done. cbn [andb]. cbv zeta.
  rewrite !zip_with_fmap.
  destruct (0 <? count_true ((λ r, 1 <? Z.abs (G r - (W r + L r))) <$> rows df))
    eqn:Hgames; cbn [orb].
  - eexists. split; [done|]. split; [done|]. split; [done|].
    intros Hnone. exfalso. apply Hnone.
    apply count_true_pos in Hgames.
    eapply Exists_impl; [exact Hgames|]. intros r Hr. left.
    unfold games_off. by apply Z.ltb_lt.
  - destruct (0 <? count_true
                     ((λ r, gtb (PrimFloat.abs
                                   (PrimFloat.sub (W_pct r)
                                      (PrimFloat.div (of_int64 (W r))
                                         (of_int64 (W r + L r)))))
                                0.01%float) <$> rows df)) eqn:Hpcts.
    + eexists. split; [done|]. split; [done|]. split; [done|].
      intros Hnone. exfalso. apply Hnone.
      apply count_true_pos in Hpcts.
      eapply Exists_impl; [exact Hpcts|]. intros r Hr. by right.
    + eexists. split; [done|]. split; [done|]. split; [|done].
      intros Hsome. exfalso.
      apply Exists_exists in Hsome as (r & Hin & [Hr|Hr]).
      * apply not_true_iff_false in Hgames. apply Hgames.
        apply count_true_pos. apply Exists_exists. exists r. split; [done|].
        by apply Z.ltb_lt.
      * apply not_true_iff_false in Hpcts. apply Hpcts.
        apply count_true_pos. apply Exists_exists. by exists r.
Qed.

Lemma calculation_accuracy_not_Fail df finding :
  finding ∈ calculation_accuracy df → status finding ≠ Fail.
Proof.
  unfold calculation_accuracy. destruct (forallb _ _).
  - cbv zeta. destruct (_ || _); intros ->%list_elem_of_singleton; done.
  - by intros ?%elem_of_nil.
Qed.

Lemma of_Z_eq_0 n : Q2Qc (inject_Z n) = 0%Qc ↔ n = 0.
Proof.
  split.
  - intros Heq. apply Q2Qc_eq_iff in Heq. unfold Qeq in Heq. cbn in Heq. lia.
  - by intros ->.
Qed.

Lemma validate_basic_data_quality_calculation df finding :
  finding ∈ validate_basic_data_quality df →
  check_name finding = "calculation_accuracy" →
  finding ∈ calculation_accuracy df.
Proof.
  unfold validate_basic_data_quality. cbv zeta.
  intros [[Hin|Hin]%elem_of_app|Hin]%elem_of_app Hname; [| |done].
  - destruct (bool_decide _); apply list_elem_of_singleton in Hin;
      by subst finding.
  - destruct (bool_decide _); apply list_elem_of_singleton in Hin;
      by subst finding.
Qed.

(** C7, as stated, fails on the code in two ways. On a table that does
    not store the games, a row with 120 wins, 50 losses and a stored win
    percentage of 0.95 draws no calculation-accuracy finding at all,
    neither a warning nor a pass. And the tolerance is tested in
    floating point: for 13 wins, 12 losses and a stored 0.51 the check
    warns, although the value the cell holds differs from 13/25 by less
    than 0.01. *)
Lemma calculation_accuracy_skipped_or_rounded :
  (Exists pct_off (rows games_not_stored) ∧
   ¬ ∃ finding, finding ∈ validate_basic_data_quality games_not_stored ∧
                check_name finding = "calculation_accuracy") ∧
  (Exists (λ r, (W r, L r, G r, W_pct r) = (13, 12, 25, 0.51%float) ∧
                ∃ q, exact (W_pct r) = Finite q ∧
                  (Qcabs (q - Q2Qc (13 # 25)) < Q2Qc (1 # 100))%Qc)
     (rows tie_at_tolerance) ∧
   ∃ finding, calculation_accuracy tie_at_tolerance = [finding] ∧
              status finding = Warning).
Proof.
  split; split.
  - apply Exists_cons_hd. by vm_compute.
  - intros (finding & Hin & Hname).
    apply validate_basic_data_quality_calculation in Hin; [|done].
    by apply elem_of_nil in Hin.
  - apply Exists_cons_hd. split; [done|].
    eexists. split; [by vm_compute|]. by vm_compute.
  - eexists. split; [by vm_compute|done].
Qed.

(** C7, amended. No finding of the calculation-accuracy check is a
    fail. On a table with the columns [W], [L], [G] and [W_pct] the
    check gives one finding: a warning when for some row the stored games
    differ from wins plus losses by more than one, or the float
    [abs(W_pct - W / (W + L))] is greater than the float 0.01, and a pass
    otherwise. On a table that lacks one of the four columns the check
    gives no finding. A row with 120 wins, 50 losses and a stored win
    percentage of 0.95 gives a warning; at the tolerance the rounding of
    the floats decides: 13 wins, 12 losses and a stored 0.51 give a
    warning, no win, one loss and a stored 0.01 give a pass. *)
Theorem calculation_accuracy_warns_never_fails :
  (∀ df finding,
     finding ∈ validate_basic_data_quality df →
     check_name finding = "calculation_accuracy" →
     status finding ≠ Fail) ∧
  (∀ df,
     "W" ∈ columns df → "L" ∈ columns df →
     "G" ∈ columns df → "W_pct" ∈ columns df →
     ∃ finding,
       calculation_accuracy df = [finding] ∧
       finding ∈ validate_basic_data_quality df ∧
       check_name finding = "calculation_accuracy" ∧
       (Exists (λ r, games_off r ∨ pct_off r) (rows df) →
        status finding = Warning) ∧
       (¬ Exists (λ r, games_off r ∨ pct_off r) (rows df) →
        status finding = Pass)) ∧
  (∀ df col,
     col ∈ ["W"; "L"; "G"; "W_pct"] → col ∉ columns df →
     calculation_accuracy df = [] ∧
     ∀ finding, finding ∈ validate_basic_data_quality df →
       check_name finding ≠ "calculation_accuracy") ∧
  (∃ finding,
     calculation_accuracy inflated_pct = [finding] ∧ status finding = Warning) ∧
  (∃ finding,
     calculation_accuracy tie_at_tolerance = [finding] ∧
     status finding = Warning) ∧
  (∃ finding,
     calculation_accuracy tie_below_tolerance = [finding] ∧
     status finding = Pass).
Proof.
  split; [|split; [|split; [|split; [|split]]]].
  - intros df finding Hin Hname.
    apply calculation_accuracy_not_Fail with df.
    by apply validate_basic_data_quality_calculation.
  - intros df Hw Hl Hg Hp.
    destruct (calculation_accuracy_status df Hw Hl Hg Hp)
      as (finding & Hrun & Hname & Hwarn & Hpass).
    exists finding. split; [done|]. split; [|done].
    unfold validate_basic_data_quality. cbv zeta.
    apply elem_of_app. right. rewrite Hrun. by left.
  - intros df col Hcol Hmissing.
    assert (calculation_accuracy df = []) as Hnone.
    { unfold calculation_accuracy.
      destruct (forallb _ _) eqn:Hall; [|done]. exfalso. apply Hmissing.
      rewrite forallb_forall in Hall. apply list_elem_of_In in Hcol.
      apply Hall in Hcol. by apply bool_decide_eq_true in Hcol. }
    split; [done|]. intros finding Hin Hname.
    apply validate_basic_data_quality_calculation in Hin; [|done].
    rewrite Hnone in Hin. by apply elem_of_nil in Hin.
  - eexists. split; [by vm_compute|done].
  - eexists. split; [by vm_compute|done].
  - eexists. split; [by vm_compute|done].
Qed.

Lemma calculation_accuracy_warns_never_fails_witness :
  ∃ finding,
    calculation_accuracy inflated_pct = [finding] ∧
    finding ∈ validate_basic_data_quality inflated_pct ∧
    check_name finding = "calculation_accuracy" ∧
    (Exists (λ r, games_off r ∨ pct_off r) (rows inflated_pct) →
     status finding = Warning) ∧
    (¬ Exists (λ r, games_off r ∨ pct_off r) (rows inflated_pct) →
     status finding = Pass).
Proof.
  apply (proj1 (proj2 calculation_accuracy_warns_never_fails) inflated_pct);
    apply (bool_decide_unpack _); by vm_compute.
Defined.

(** ** Statistical sufficiency *)

Lemma empty_rows df col :
  col ∈ columns df → empty df = bool_decide (rows df = []).
Proof.
  intros Hin. unfold empty.
  rewrite (bool_decide_eq_false_2 (columns df = [])); [by rewrite orb_false_r|].
  intros Heq. rewrite Heq in Hin. by apply elem_of_nil in Hin.
Qed.

Lemma franchise_rows_Ok df l :
  "franchID" ∈ columns df →
  franchise_rows df l =
  Ok {| columns := columns df; rows := franchise_seasons df l |}.
Proof.
  intros Hin. unfold franchise_rows. rewrite column_Ok by done.
  cbn [mbind result_bind]. unfold where_. cbn [rows columns].
  rewrite <- list_fmap_compose, select_fmap. do 2 f_equal.
  unfold franchise_seasons.
  apply list_filter_iff. intros r. cbn. by rewrite bool_decide_eq_true.
Qed.

Lemma completeness_entry_counts df kv :
  "franchID" ∈ columns df → "yearID" ∈ columns df →
  completeness_entry df kv = Ok (season_counts df kv).
Proof.
  intros Hf Hy. unfold completeness_entry, season_counts, primary_relocation_year.
  destruct (relocations kv.2) as [|first others]; [done|].
  rewrite franchise_rows_Ok by done. cbn [mbind result_bind].
  rewrite (empty_rows _ "franchID") by done. cbn [rows].
  case_bool_decide as Hdata; [done|].
  rewrite column_Ok by done. cbn [mbind result_bind]. cbv zeta.
  unfold len, where_. cbn [rows]. rewrite <- !list_fmap_compose, !select_fmap.
  unfold compose.
  assert (∀ y, filter (λ r, (yearID r <? y) = true) (franchise_seasons df kv.2)
               = filter (λ r, yearID r < y) (franchise_seasons df kv.2)) as Hpre.
  { intros y. apply list_filter_iff. intros r. apply Z.ltb_lt. }
  assert (∀ y, filter (λ r, (y <=? yearID r) = true) (franchise_seasons df kv.2)
               = filter (λ r, y ≤ yearID r) (franchise_seasons df kv.2)) as Hpost.
  { intros y. apply list_filter_iff. intros r. apply Z.leb_le. }
  rewrite Hpre, Hpost. fold (seasons_before df kv.2 (year (max_by_year first others))).
  fold (seasons_from df kv.2 (year (max_by_year first others))).
  unfold MIN_SEASONS_PRE, MIN_SEASONS_POST.
  destruct (Z.ltb_spec (seasons_before df kv.2 (year (max_by_year first others))) 10),
    (Z.ltb_spec (seasons_from df kv.2 (year (max_by_year first others))) 10);
    cbn [orb]; do 3 f_equal;
    [rewrite bool_decide_eq_false_2 by lia..|rewrite bool_decide_eq_true_2 by lia];
    done.
Qed.

Lemma is_max_relocation_year_unique l y y' :
  is_max_relocation_year l y → is_max_relocation_year l y' → y = y'.
Proof. intros [Hin Hmax] [Hin' Hmax']. apply Hmax' in Hin. apply Hmax in Hin'. lia. Qed.

Lemma primary_relocation_year_max l y :
  primary_relocation_year l = Some y ↔ is_max_relocation_year l y.
Proof.
  unfold primary_relocation_year.
  destruct (relocations l) as [|first others] eqn:Hrel.
  - split; [done|]. intros [Hin _]. rewrite Hrel in Hin. by apply elem_of_nil in Hin.
  - pose proof (max_by_year_is_max l first others Hrel) as Hmax. split.
    + by intros [= <-].
    + intros Hy. f_equal. by apply (is_max_relocation_year_unique l).
Qed.

Lemma check_data_completeness_entries df mapper :
  "franchID" ∈ columns df → "yearID" ∈ columns df →
  for_each (completeness_entry df) (lineages mapper) =
  Ok (lineages mapper ≫= season_counts df).
Proof.
  intros Hf Hy. apply for_each_Ok. intros kv _.
  by apply completeness_entry_counts.
Qed.

Lemma elem_of_season_counts df (table : Lineages) e :
  e ∈ table ≫= season_counts df ↔
  ∃ c l y, (c, l) ∈ table ∧ is_max_relocation_year l y ∧
    franchise_seasons df l ≠ [] ∧
    e = {| counts_franchise := c;
           counts_relocation_year := y;
           pre_seasons := seasons_before df l y;
           post_seasons := seasons_from df l y;
           sufficient_for_analysis :=
             bool_decide (10 ≤ seasons_before df l y ∧
                          10 ≤ seasons_from df l y) |}.
Proof.
  rewrite list_elem_of_bind. split.
  - intros ([c l] & He & Hin). unfold season_counts in He. cbn in He.
    destruct (primary_relocation_year l) as [y|] eqn:Hy;
      [|by apply elem_of_nil in He].
    case_bool_decide as Hdata; [by apply elem_of_nil in He|].
    apply list_elem_of_singleton in He. exists c, l, y.
    by rewrite <- primary_relocation_year_max.
  - intros (c & l & y & Hin & Hy & Hdata & ->). exists (c, l). split; [|done].
    unfold season_counts. cbn. apply primary_relocation_year_max in Hy.
    rewrite Hy. rewrite (bool_decide_eq_false_2 (franchise_seasons df l = []))
      by done.
    by left.
Qed.

(** C8. On a table with the columns [franchID] and [yearID] the check
    gives one finding. Its evidence has one entry for each lineage that
    has relocated and has seasons in the table, with the number of
    seasons before the greatest relocation year and the number at or
    after it; the entry is sufficient exactly when both numbers are at
    least ten. The finding is a warning when some entry is insufficient
    and a pass when all are sufficient. A lineage with 8 seasons before
    and 12 after is insufficient and makes the finding a warning; one
    with 10 and 10 is sufficient. *)
Theorem statistical_sufficiency_bar :
  (∀ (df : DataFrame) (mapper : Mapper),
     "franchID" ∈ columns df → "yearID" ∈ columns df →
     ∃ finding entries,
       check_data_completeness df mapper = Ok [finding] ∧
       check_name finding = "statistical_sufficiency" ∧
       for_each (completeness_entry df) (lineages mapper) = Ok entries ∧
       (∀ e, e ∈ entries ↔
          ∃ c l y, (c, l) ∈ lineages mapper ∧ is_max_relocation_year l y ∧
            franchise_seasons df l ≠ [] ∧
            e = {| counts_franchise := c;
                   counts_relocation_year := y;
                   pre_seasons := seasons_before df l y;
                   post_seasons := seasons_from df l y;
                   sufficient_for_analysis :=
                     bool_decide (10 ≤ seasons_before df l y ∧
                                  10 ≤ seasons_from df l y) |}) ∧
       (status finding = Warning ↔
          ∃ e, e ∈ entries ∧ sufficient_for_analysis e = false) ∧
       (status finding = Pass ↔
          ∀ e, e ∈ entries → sufficient_for_analysis e = true)) ∧
  (∃ finding,
     check_data_completeness (dodgers_seasons 1950) FranchiseMapper
       = Ok [finding] ∧
     status finding = Warning ∧
     details finding = Some (FranchiseDataCounts
       [ {| counts_franchise := "LAD"; counts_relocation_year := 1958;
            pre_seasons := 8; post_seasons := 12;
            sufficient_for_analysis := false |} ])) ∧
  for_each (completeness_entry (dodgers_seasons 1948)) (lineages FranchiseMapper)
    = Ok [ {| counts_franchise := "LAD"; counts_relocation_year := 1958;
              pre_seasons := 10; post_seasons := 10;
              sufficient_for_analysis := true |} ].
Proof.
  split; [|split].
  - intros df mapper Hf Hy. unfold check_data_completeness.
    rewrite check_data_completeness_entries by done. cbn [mbind result_bind].
    set (entries := lineages mapper ≫= season_counts df).
    assert (∀ e, e ∈ filter (λ d, sufficient_for_analysis d = false) entries ↔
                 e ∈ entries ∧ sufficient_for_analysis e = false) as Hfilter.
    { intros e. rewrite list_elem_of_filter. tauto. }
    destruct (filter (λ d, sufficient_for_analysis d = false) entries)
      as [|bad others] eqn:Hbad; cbn.
    + eexists _, entries. split; [done|]. split; [done|]. split; [done|].
      split; [apply elem_of_season_counts|]. cbn. split.
      * split; [done|]. intros (e & He & Hins).
        assert (e ∈ []) as Hnil by (by apply Hfilter). by apply elem_of_nil in Hnil.
      * split; [|done]. intros _ e He.
        destruct (sufficient_for_analysis e) eqn:Hs; [done|].
        assert (e ∈ []) as Hnil by (by apply Hfilter). by apply elem_of_nil in Hnil.
    + eexists _, entries. split; [done|]. split; [done|]. split; [done|].
      split; [apply elem_of_season_counts|]. cbn.
      assert (bad ∈ entries ∧ sufficient_for_analysis bad = false) as [Hin Hins].
      { apply Hfilter. by left. }
      split.
      * split; [|done]. intros _. by exists bad.
      * split; [done|]. intros Hall. apply Hall in Hin. congruence.
  - eexists. split; [by vm_compute|]. by split.
  - by vm_compute.
Qed.

Lemma statistical_sufficiency_bar_witness :
  ∃ finding entries,
    check_data_completeness (dodgers_seasons 1950) FranchiseMapper
      = Ok [finding] ∧
    check_name finding = "statistical_sufficiency" ∧
    for_each (completeness_entry (dodgers_seasons 1950))
      (lineages FranchiseMapper) = Ok entries ∧
    (∀ e, e ∈ entries ↔
       ∃ c l y, (c, l) ∈ lineages FranchiseMapper ∧
         is_max_relocation_year l y ∧
         franchise_seasons (dodgers_seasons 1950) l ≠ [] ∧
         e = {| counts_franchise := c;
                counts_relocation_year := y;
                pre_seasons := seasons_before (dodgers_seasons 1950) l y;
                post_seasons := seasons_from (dodgers_seasons 1950) l y;
                sufficient_for_analysis :=
                  bool_decide
                    (10 ≤ seasons_before (dodgers_seasons 1950) l y ∧
                     10 ≤ seasons_from (dodgers_seasons 1950) l y) |}) ∧
    (status finding = Warning ↔
       ∃ e, e ∈ entries ∧ sufficient_for_analysis e = false) ∧
    (status finding = Pass ↔
       ∀ e, e ∈ entries → sufficient_for_analysis e = true).
Proof.
  apply (proj1 statistical_sufficiency_bar (dodgers_seasons 1950)
           FranchiseMapper);
    apply (bool_decide_unpack _); by vm_compute.
Defined.

(** [generate_relocation_summary] applies the same bar to the pre and
    post rows the annotator marked. *)
Lemma generate_relocation_summary_sufficient self df s :
  s ∈ generate_relocation_summary self df →
  sufficient_data s = true ↔
  10 ≤ pre_relocation_seasons s ∧ 10 ≤ post_relocation_seasons s.
Proof.
  unfold generate_relocation_summary. cbv zeta.
  intros (c & Hs & _)%list_elem_of_bind. revert Hs.
  unfold relocation_summary. cbv zeta.
  destruct (of_franchise c _) as [|r rs]; [by intros ?%elem_of_nil|].
  destruct (get_franchise_info self c) as [l|]; [|by intros ?%elem_of_nil].
  destruct (relocations l); [by intros ?%elem_of_nil|].
  intros ->%list_elem_of_singleton. cbn.
  by rewrite andb_true_iff, !Z.leb_le.
Qed.

Example dodgers_summary :
  (λ s, (summary_franchise s, summary_relocation_year s,
         pre_relocation_seasons s, post_relocation_seasons s,
         sufficient_data s))
    <$> generate_relocation_summary CorrectedFranchiseMapper
          (rows (dodgers_seasons 1950)) =
  [("LAD", 1958, 8, 12, false)].
Proof. by vm_compute. Qed.

(** ** Effect size *)

Lemma fadd_comm x y : fadd x y = fadd y x.
Proof. destruct x, y; cbn; try done. by rewrite Qcplus_comm. Qed.

Lemma fsub_swap x y : fsub x y = fneg (fsub y x).
Proof. destruct x, y; cbn; try done. apply (f_equal Finite). ring. Qed.

Lemma fabs_fneg x : fabs (fneg x) = fabs x.
Proof. destruct x; cbn; try done. by rewrite Qcabs_opp. Qed.

(** Dividing the negated value by a positive divisor negates the quotient. *)
Lemma fdiv_fneg x s :
  fgtb s (of_Z 0) = true → fdiv (fneg x) s = fneg (fdiv x s).
Proof.
  unfold fgtb. destruct s as [b| | |]; cbn; try done.
  - rewrite bool_decide_eq_true. intros Hb.
    assert (b ≠ 0%Qc) as Hne.
    { intros ->. by apply Qclt_not_le in Hb. }
    assert (¬ (b < 0)%Qc) as Hnn.
    { intros Hlt. apply Qclt_not_le in Hb. apply Hb. by apply Qclt_le_weak. }
    destruct x as [a| | |]; cbn; try done.
    + rewrite bool_decide_eq_false_2 by done. apply (f_equal Finite).
      unfold Qcdiv. ring.
    + by rewrite bool_decide_eq_false_2.
    + by rewrite bool_decide_eq_false_2.
  - intros _. destruct x; cbn; done.
Qed.

Section effect_size_facts.
Variable np_sqrt : float64 → float64.

Lemma pooled_std_swap pre post :
  pooled_std np_sqrt pre post = pooled_std np_sqrt post pre.
Proof.
  unfold pooled_std. cbv zeta. rewrite fadd_comm.
  by rewrite (Z.add_comm (Z.of_nat (length pre))).
Qed.

Lemma effect_magnitude_fneg d :
  effect_magnitude (fneg d) = effect_magnitude d.
Proof. unfold effect_magnitude. by rewrite fabs_fneg. Qed.

Lemma effect_nonempty pre post :
  pre ≠ [] → post ≠ [] →
  effect np_sqrt pre post =
  if fgtb (pooled_std np_sqrt pre post) (of_Z 0)
  then Some (Some (fdiv (fsub (mean post) (mean pre))
                     (pooled_std np_sqrt pre post)),
             effect_magnitude
               (fdiv (fsub (mean post) (mean pre))
                  (pooled_std np_sqrt pre post)))
  else Some (None, "unknown").
Proof. intros Hpre Hpost. unfold effect. by destruct pre, post. Qed.
End effect_size_facts.

(** The bands of a finite effect size. *)
Lemma effect_magnitude_bands (q : Qc) :
  ((Qcabs q < Q2Qc (2 # 10))%Qc → effect_magnitude (Finite q) = "negligible") ∧
  ((Q2Qc (2 # 10) <= Qcabs q)%Qc → (Qcabs q < Q2Qc (5 # 10))%Qc →
     effect_magnitude (Finite q) = "small") ∧
  ((Q2Qc (5 # 10) <= Qcabs q)%Qc → (Qcabs q < Q2Qc (8 # 10))%Qc →
     effect_magnitude (Finite q) = "medium") ∧
  ((Q2Qc (8 # 10) <= Qcabs q)%Qc → effect_magnitude (Finite q) = "large").
Proof.
  unfold effect_magnitude, fgeb, fleb, of_Q, fabs.
  repeat split; intros; repeat case_bool_decide; try done; exfalso;
    unfold Qclt, Qcle in *;
    change (this (Q2Qc (2 # 10))) with (1 # 5)%Q in *;
    change (this (Q2Qc (5 # 10))) with (1 # 2)%Q in *;
    change (this (Q2Qc (8 # 10))) with (4 # 5)%Q in *;
    lra.
Qed.

(** The effect size on the example samples: means 0.5 and 0.6, pooled
    standard deviation 0.1. *)
Example effect_of_samples :
  effect sqrt_six_decimals sample_pre sample_post
    = Some (Some (of_Z 1), "large") ∧
  effect sqrt_six_decimals sample_post sample_pre
    = Some (Some (of_Z (-1)), "large").
Proof.
  split; vm_compute;
    apply (f_equal (λ d, Some (Some (Finite d), "large")));
    by apply Qc_is_canon.
Qed.

(** C9. For non-empty samples whose pooled standard deviation is
    positive, the effect size is the difference of the means, post minus
    pre, over the pooled standard deviation; with the samples exchanged it
    is the negated value, of the same absolute value and in the same
    band. The band of a finite effect size is negligible below 0.2 in
    absolute value, small below 0.5, medium below 0.8 and large from 0.8
    on. *)
Theorem effect_size_antisymmetric (np_sqrt : float64 → float64)
    (pre post : list float64) :
  pre ≠ [] → post ≠ [] →
  fgtb (pooled_std np_sqrt pre post) (of_Z 0) = true →
  ∃ d,
    d = fdiv (fsub (mean post) (mean pre)) (pooled_std np_sqrt pre post) ∧
    effect np_sqrt pre post = Some (Some d, effect_magnitude d) ∧
    effect np_sqrt post pre = Some (Some (fneg d), effect_magnitude (fneg d)) ∧
    fabs (fneg d) = fabs d ∧
    effect_magnitude (fneg d) = effect_magnitude d ∧
    ∀ q, d = Finite q →
      ((Qcabs q < Q2Qc (2 # 10))%Qc → effect_magnitude d = "negligible") ∧
      ((Q2Qc (2 # 10) <= Qcabs q)%Qc → (Qcabs q < Q2Qc (5 # 10))%Qc →
         effect_magnitude d = "small") ∧
      ((Q2Qc (5 # 10) <= Qcabs q)%Qc → (Qcabs q < Q2Qc (8 # 10))%Qc →
         effect_magnitude d = "medium") ∧
      ((Q2Qc (8 # 10) <= Qcabs q)%Qc → effect_magnitude d = "large").
Proof.
  intros Hpre Hpost Hpos. eexists. split; [reflexivity|].
  rewrite !effect_nonempty by done.
  rewrite <- (pooled_std_swap np_sqrt pre post). rewrite Hpos.
  split; [done|]. split.
  - by rewrite (fsub_swap (mean pre) (mean post)), fdiv_fneg.
  - split; [apply fabs_fneg|]. split; [apply effect_magnitude_fneg|].
    intros q ->. apply effect_magnitude_bands.
Qed.

Lemma effect_size_antisymmetric_witness :
  ∃ d,
    d = fdiv (fsub (mean sample_post) (mean sample_pre))
          (pooled_std sqrt_six_decimals sample_pre sample_post) ∧
    effect sqrt_six_decimals sample_pre sample_post
      = Some (Some d, effect_magnitude d) ∧
    effect sqrt_six_decimals sample_post sample_pre
      = Some (Some (fneg d), effect_magnitude (fneg d)) ∧
    fabs (fneg d) = fabs d ∧
    effect_magnitude (fneg d) = effect_magnitude d ∧
    ∀ q, d = Finite q →
      ((Qcabs q < Q2Qc (2 # 10))%Qc → effect_magnitude d = "negligible") ∧
      ((Q2Qc (2 # 10) <= Qcabs q)%Qc → (Qcabs q < Q2Qc (5 # 10))%Qc →
         effect_magnitude d = "small") ∧
      ((Q2Qc (5 # 10) <= Qcabs q)%Qc → (Qcabs q < Q2Qc (8 # 10))%Qc →
         effect_magnitude d = "medium") ∧
      ((Q2Qc (8 # 10) <= Qcabs q)%Qc → effect_magnitude d = "large").
Proof.
  apply (effect_size_antisymmetric sqrt_six_decimals sample_pre sample_post).
  - discriminate.
  - discriminate.
  - by vm_compute.
Defined.

(** C10. For non-empty samples, when the pooled standard deviation is
    not greater than zero (zero, negative or NaN) the effect size is
    [None] and the magnitude ["unknown"]; whenever an effect size is
    reported, the pooled standard deviation is positive and the effect
    size is the quotient by it. *)
Theorem effect_size_division_guarded (np_sqrt : float64 → float64)
    (pre post : list float64) :
  pre ≠ [] → post ≠ [] →
  (fgtb (pooled_std np_sqrt pre post) (of_Z 0) = false →
   effect np_sqrt pre post = Some (None, "unknown")) ∧
  (pooled_std np_sqrt pre post = of_Z 0 →
   effect np_sqrt pre post = Some (None, "unknown")) ∧
  (pooled_std np_sqrt pre post = NaN →
   effect np_sqrt pre post = Some (None, "unknown")) ∧
  (∀ d band,
     effect np_sqrt pre post = Some (Some d, band) →
     d = fdiv (fsub (mean post) (mean pre)) (pooled_std np_sqrt pre post) ∧
     (pooled_std np_sqrt pre post = PInf ∨
      ∃ s, pooled_std np_sqrt pre post = Finite s ∧ (0 < s)%Qc)).
Proof.
  intros Hpre Hpost. rewrite effect_nonempty by done.
  split; [by intros ->|]. split; [by intros ->|]. split; [by intros ->|].
  intros d band. unfold fgtb.
  destruct (pooled_std np_sqrt pre post) as [s| | |] eqn:Hs; cbn; try done.
  - case_bool_decide as Hpos; [|done]. intros [= <- _]. split; [done|].
    right. by exists s.
  - intros [= <- _]. split; [done|]. by left.
Qed.

Lemma effect_size_division_guarded_witness :
  effect sqrt_six_decimals sample_flat sample_flat = Some (None, "unknown").
Proof.
  refine (proj1 (effect_size_division_guarded sqrt_six_decimals
                   sample_flat sample_flat _ _) _).
  - discriminate.
  - discriminate.
  - by vm_compute.
Defined.

(** The analysis of a franchise reports the effect of its pre and post
    win percentages. *)
Lemma franchise_analysis_effect np_sqrt mapper df canonical a :
  a ∈ franchise_analysis np_sqrt mapper df canonical →
  effect_entries a =
  effect np_sqrt (wpct (pre_rows (of_franchise canonical df)))
    (wpct (post_rows (of_franchise canonical df))).
Proof.
  unfold franchise_analysis. cbv zeta.
  destruct (of_franchise canonical df) as [|r rs]; [by intros ?%elem_of_nil|].
  destruct (get_franchise_info mapper canonical) as [l|];
    [|by intros ?%elem_of_nil].
  destruct (relocations l); [by intros ?%elem_of_nil|].
  by intros ->%list_elem_of_singleton.
Qed.

(** ** Running all the checks *)



Section all_columns.
Variable df : DataFrame.
Hypothesis all_required : Forall (λ col, col ∈ columns df) required_cols.








End all_columns.

(** C5 fails on the code. On the table with the seven columns of the
    input schema and neither [G] nor [W_pct], the first check reports the
    two missing columns as a fail finding, and the run then ends in
    [KeyError] instead of returning it: [validate_historical_accuracy]
    reads the [W_pct] column without the test that
    [validate_basic_data_quality] makes. On a table without columns the
    run ends in [KeyError] on [yearID]. *)
Theorem run_all_validations_raises_on_missing_column :
  (∀ current_year mapper,
     run_all_validations current_year minimal_schema_table mapper
       = Raise (KeyError "W_pct")) ∧
  (∃ finding,
     finding ∈ validate_basic_data_quality minimal_schema_table ∧
     check_name finding = "required_columns" ∧ status finding = Fail ∧
     message finding = "Missing required columns: ['G', 'W_pct']") ∧
  (∀ current_year mapper,
     run_all_validations current_year no_columns_table mapper
       = Raise (KeyError "yearID")).
Proof.
  split; [|split].
  - intros current_year mapper. unfold run_all_validations. cbv zeta.
    assert (validate_historical_accuracy current_year minimal_schema_table
            = Raise (KeyError "W_pct")) as ->; [|done].
    unfold validate_historical_accuracy. by vm_compute.
  - eexists. split.
    + apply list_elem_of_In. cbn. left. reflexivity.
    + by vm_compute.
  - intros current_year mapper. unfold run_all_validations. cbv zeta.
    assert (validate_historical_accuracy current_year no_columns_table
            = Raise (KeyError "yearID")) as ->; [|done].
    by vm_compute.
Qed.

(** * Further properties

    ** The queries of the mapper *)

Lemma get_franchise_info_dict_get self canonical :
  get_franchise_info self canonical = dict_get canonical (lineages self).
Proof.
  unfold get_franchise_info.
  induction (lineages self) as [|[k l] items IH]; [done|].
  cbn. case_decide as Hk; cbn in Hk.
  - by rewrite bool_decide_eq_true_2.
  - rewrite bool_decide_eq_false_2 by done. rewrite <- IH.
    by destruct (list_find _ items) as [[i kv]|].
Qed.

Lemma elem_of_get_relocated_franchises self canonical :
  canonical ∈ get_relocated_franchises self ↔
  ∃ l, (canonical, l) ∈ lineages self ∧ relocations l ≠ [].
Proof.
  unfold get_relocated_franchises. rewrite list_elem_of_fmap. split.
  - intros ([k l] & -> & [Hrel Hin]%list_elem_of_filter). by exists l.
  - intros (l & Hin & Hrel). exists (canonical, l). split; [done|].
    by apply list_elem_of_filter.
Qed.

(** The three queries about relocations agree: a key is in the list of
    relocated franchises exactly when [is_relocated_franchise] holds of
    it, which is exactly when it has relocation years; a key that is not
    in the table is not relocated and has no years. *)
Theorem relocation_queries_agree (self : Mapper) (canonical : string) :
  NoDup ((lineages self).*1) →
  (MapperQueries.is_relocated_franchise self canonical = true ↔
   canonical ∈ get_relocated_franchises self) ∧
  (MapperQueries.is_relocated_franchise self canonical = true ↔
   MapperQueries.get_relocation_years self canonical ≠ []) ∧
  (canonical ∉ (lineages self).*1 →
   get_franchise_info self canonical = None ∧
   MapperQueries.is_relocated_franchise self canonical = false ∧
   MapperQueries.get_relocation_years self canonical = []) ∧
  (∀ l, (canonical, l) ∈ lineages self →
   get_franchise_info self canonical = Some l ∧
   MapperQueries.get_relocation_years self canonical = year <$> relocations l).
Proof.
  intros Hnd.
  unfold MapperQueries.is_relocated_franchise, MapperQueries.get_relocation_years.
  rewrite get_franchise_info_dict_get, elem_of_get_relocated_franchises.
  split; [|split; [|split]].
  - destruct (dict_get canonical (lineages self)) as [l|] eqn:Hget.
    + rewrite bool_decide_eq_true. split.
      * intros Hlen. exists l. split; [by apply dict_get_Some|].
        intros Hrel. rewrite Hrel in Hlen. cbn in Hlen. lia.
      * intros (l' & Hin & Hrel). apply (dict_get_elem_of _ _ _ Hnd) in Hin.
        assert (l' = l) as -> by congruence.
        destruct (relocations l); [done|]. cbn. lia.
    + split; [done|]. intros (l & Hin & _).
      apply (dict_get_elem_of _ _ _ Hnd) in Hin. congruence.
  - destruct (dict_get canonical (lineages self)) as [l|]; [|done].
    rewrite bool_decide_eq_true. destruct (relocations l); cbn; split;
      intros; done || lia.
  - intros Hnotin.
    assert (dict_get canonical (lineages self) = None) as ->; [|done].
    destruct (dict_get canonical (lineages self)) as [l|] eqn:Hget; [|done].
    exfalso. apply Hnotin. apply dict_get_Some in Hget.
    apply list_elem_of_fmap. by exists (canonical, l).
  - intros l Hin. by rewrite (dict_get_elem_of _ _ _ Hnd Hin).
Qed.

Lemma relocation_queries_agree_witness :
  MapperQueries.is_relocated_franchise CorrectedFranchiseMapper "ATL" = true ↔
  "ATL" ∈ get_relocated_franchises CorrectedFranchiseMapper.
Proof.
  apply (relocation_queries_agree CorrectedFranchiseMapper "ATL").
  apply (bool_decide_unpack _). by vm_compute.
Defined.

(** ** The annotated rows *)

Lemma new_mapper_Ok table m :
  new_mapper table = Ok m →
  lineages m = table ∧ _build_lahman_mapping table = Ok (lahman_to_canonical m).
Proof.
  unfold new_mapper. destruct (_build_lahman_mapping table) as [mapping|e]; [|done].
  cbn. by intros [= <-].
Qed.

Lemma annotate_season_is_relocated (table : Lineages) mapping r :
  NoDup (table.*1) →
  is_relocated_franchise (annotate_season table mapping r) = true ↔
  ∃ c l, mapping !! franchID r = Some c ∧ (c, l) ∈ table ∧ relocations l ≠ [].
Proof.
  intros Hnd. unfold annotate_season.
  destruct (mapping !! franchID r) as [c|] eqn:Hmap;
    [|split; [done|by intros (? & ? & ? & _)]].
  destruct (dict_get c table) as [l|] eqn:Hget; cbn.
  - unfold primary_relocation_year.
    destruct (relocations l) as [|first others] eqn:Hrel; cbn.
    + split; [done|]. intros (c' & l' & [= <-] & Hin & Hrel').
      rewrite (dict_get_elem_of c l' table) in Hget by done.
      injection Hget as ->. done.
    + split; [|done]. intros _. exists c, l. split; [done|].
      split; [by apply dict_get_Some|]. by rewrite Hrel.
  - split; [done|]. intros (c' & l' & [= <-] & Hin & _).
    by rewrite (dict_get_elem_of c l' table) in Hget.
Qed.

(** Invariants of every row either annotator returns: the canonical key
    is the lookup of the row's identifier; the franchise is flagged as
    relocated exactly when that identifier resolves to a lineage of the
    table with at least one relocation, exactly when the row is pre or
    post, never both, and exactly when a relocation year is recorded; a
    recorded number of years since the relocation is never negative,
    belongs to a post row and is the distance to the recorded relocation
    year, which is the greatest relocation year of the row's lineage. *)
Theorem annotated_row_invariants (mapper : Mapper) (df : list Row)
    (r : AnnotatedRow) :
  NoDup ((lineages mapper).*1) →
  r ∈ create_annotated_dataset df mapper ∨
  r ∈ annotated <$> get_analysis_ready_data mapper df →
  canonical_franchise r = lahman_to_canonical mapper !! franchID (season r) ∧
  (is_relocated_franchise r = true ↔
   ∃ c l, lahman_to_canonical mapper !! franchID (season r) = Some c ∧
     (c, l) ∈ lineages mapper ∧ relocations l ≠ []) ∧
  is_relocated_franchise r = pre_relocation r || post_relocation r ∧
  ¬ (pre_relocation r = true ∧ post_relocation r = true) ∧
  (is_relocated_franchise r = true ↔ is_Some (relocation_year r)) ∧
  (∀ k, years_since_relocation r = Some k →
     0 ≤ k ∧ post_relocation r = true ∧
     relocation_year r = Some (yearID (season r) - k)) ∧
  (∀ y, relocation_year r = Some y →
     ∃ c l, canonical_franchise r = Some c ∧ (c, l) ∈ lineages mapper ∧
       is_max_relocation_year l y).
Proof.
  intros Hnd Hin.
  destruct (annotated_row_inv _ _ _ Hnd Hin) as (r0 & _ & ->).
  rewrite annotate_season_canonical, annotate_season_season.
  split; [done|]. split; [by apply annotate_season_is_relocated|].
  assert (is_relocated_franchise (default_row (lahman_to_canonical mapper) r0) =
            pre_relocation (default_row (lahman_to_canonical mapper) r0) ||
            post_relocation (default_row (lahman_to_canonical mapper) r0) ∧
          ¬ (pre_relocation (default_row (lahman_to_canonical mapper) r0) = true ∧
             post_relocation (default_row (lahman_to_canonical mapper) r0) = true) ∧
          (is_relocated_franchise (default_row (lahman_to_canonical mapper) r0)
             = true ↔
           is_Some (relocation_year (default_row (lahman_to_canonical mapper) r0))) ∧
          (∀ k, years_since_relocation
                  (default_row (lahman_to_canonical mapper) r0) = Some k →
             0 ≤ k ∧
             post_relocation (default_row (lahman_to_canonical mapper) r0) = true ∧
             relocation_year (default_row (lahman_to_canonical mapper) r0) =
               Some (yearID r0 - k)) ∧
          (∀ y, relocation_year (default_row (lahman_to_canonical mapper) r0)
                  = Some y →
             ∃ c l, lahman_to_canonical mapper !! franchID r0 = Some c ∧
               (c, l) ∈ lineages mapper ∧ is_max_relocation_year l y))
    as Hdefault.
  { cbn. split; [done|]. split; [by intros [? ?]|].
    split; [split; [done|by intros [? ?]]|]. split; by intros ? [=]. }
  unfold annotate_season.
  destruct (lahman_to_canonical mapper !! franchID r0) as [c|] eqn:Hmap;
    [|done].
  destruct (dict_get c (lineages mapper)) as [l|] eqn:Hget; [|done].
  cbn. destruct (primary_relocation_year l) as [split|] eqn:Hsplit; [|done].
  cbn. split; [|split; [|split; [|split]]].
  - destruct (Z.ltb_spec (yearID r0) split), (Z.leb_spec split (yearID r0));
      cbn; done || lia.
  - rewrite Z.ltb_lt, Z.leb_le. lia.
  - split; [by eexists|done].
  - intros k. destruct (Z.leb_spec split (yearID r0)); [|done].
    intros [= <-]. split; [lia|]. split; [done|]. f_equal. lia.
  - intros y [= <-]. exists c, l. split; [done|].
    split; [by apply dict_get_Some|]. by apply primary_relocation_year_max.
Qed.

Lemma annotated_row_invariants_witness :
  canonical_franchise braves_1970_annotated = lahman_to_canonical CorrectedFranchiseMapper !! franchID (season braves_1970_annotated) ∧
  (is_relocated_franchise braves_1970_annotated = true ↔
   ∃ c l, lahman_to_canonical CorrectedFranchiseMapper !! franchID (season braves_1970_annotated) = Some c ∧
     (c, l) ∈ lineages CorrectedFranchiseMapper ∧ relocations l ≠ []) ∧
  is_relocated_franchise braves_1970_annotated = pre_relocation braves_1970_annotated || post_relocation braves_1970_annotated ∧
  ¬ (pre_relocation braves_1970_annotated = true ∧ post_relocation braves_1970_annotated = true) ∧
  (is_relocated_franchise braves_1970_annotated = true ↔ is_Some (relocation_year braves_1970_annotated)) ∧
  (∀ k, years_since_relocation braves_1970_annotated = Some k →
     0 ≤ k ∧ post_relocation braves_1970_annotated = true ∧
     relocation_year braves_1970_annotated = Some (yearID (season braves_1970_annotated) - k)) ∧
  (∀ y, relocation_year braves_1970_annotated = Some y →
     ∃ c l, canonical_franchise braves_1970_annotated = Some c ∧ (c, l) ∈ lineages CorrectedFranchiseMapper ∧
       is_max_relocation_year l y).
Proof.
  apply (annotated_row_invariants CorrectedFranchiseMapper
           [braves_season 1970] braves_1970_annotated).
  - apply (bool_decide_unpack _). by vm_compute.
  - left. apply list_elem_of_In. vm_compute. left. reflexivity.
Defined.

(** The two annotators agree: dropping the era column from the result of
    [get_analysis_ready_data] gives the rows of
    [create_annotated_dataset] that have a canonical key. *)
Theorem analysis_ready_data_is_annotated_dataset (mapper : Mapper)
    (df : list Row) :
  NoDup ((lineages mapper).*1) →
  annotated <$> get_analysis_ready_data mapper df =
  filter (λ r, is_Some (canonical_franchise r))
    (create_annotated_dataset df mapper).
Proof.
  intros Hnd.
  rewrite create_annotated_dataset_seasons, get_analysis_ready_data_seasons
    by done.
  rewrite <- list_fmap_compose.
  induction df as [|r df IH]; [done|]. rewrite fmap_cons.
  destruct (decide (is_Some (lahman_to_canonical mapper !! franchID r)))
    as [Hsome|Hnone].
  - rewrite (filter_cons_True _ r) by done.
    rewrite filter_cons_True by (by rewrite annotate_season_canonical).
    rewrite fmap_cons. by rewrite IH.
  - rewrite (filter_cons_False _ r) by done.
    by rewrite filter_cons_False by (by rewrite annotate_season_canonical).
Qed.

Lemma analysis_ready_data_is_annotated_dataset_witness :
  annotated <$> get_analysis_ready_data FranchiseMapper
                  [colonels_1899; red_sox_1967; braves_season 1970] =
  filter (λ r, is_Some (canonical_franchise r))
    (create_annotated_dataset
       [colonels_1899; red_sox_1967; braves_season 1970] FranchiseMapper).
Proof.
  apply (analysis_ready_data_is_annotated_dataset FranchiseMapper).
  apply (bool_decide_unpack _). by vm_compute.
Defined.

(** For a mapper the constructor returned, [get_analysis_ready_data]
    keeps exactly the rows whose identifier some lineage of the table
    lists, and the canonical key of a kept row is the key of a lineage
    that lists its identifier. *)
Theorem analysis_ready_rows_are_listed (table : Lineages) (mapper : Mapper)
    (df : list Row) :
  NoDup (table.*1) →
  new_mapper table = Ok mapper →
  (λ r, season (annotated r)) <$> get_analysis_ready_data mapper df =
    filter (λ r, franchID r ∈ all_identifiers table) df ∧
  ∀ r, r ∈ get_analysis_ready_data mapper df →
    ∃ c l, canonical_franchise (annotated r) = Some c ∧ (c, l) ∈ table ∧
      franchID (season (annotated r)) ∈ lahman_ids l.
Proof.
  intros Hnd [Htable Hbuild]%new_mapper_Ok.
  apply _build_lahman_mapping_Ok in Hbuild as [_ Hmap].
  assert (∀ r, is_Some (lahman_to_canonical mapper !! franchID r) ↔
               franchID r ∈ all_identifiers table) as Hkeys.
  { intros r. rewrite elem_of_all_identifiers. split.
    - intros [c (l & Hl & Hid)%Hmap].
      apply list_elem_of_lookup in Hl as [j Hj]. by exists j, (c, l).
    - intros (j & [c l] & Hj & Hid). exists c. apply Hmap. exists l.
      split; [|done]. by apply list_elem_of_lookup_2 in Hj. }
  rewrite <- Htable in Hnd. split.
  - rewrite get_analysis_ready_data_seasons by done.
    rewrite <- list_fmap_compose.
    rewrite (list_filter_iff _ (λ r, franchID r ∈ all_identifiers table)) by done.
    rewrite <- (list_fmap_id (filter _ df)) at 2.
    apply list_fmap_ext. intros i r _. apply annotate_season_season.
  - intros r Hin. rewrite get_analysis_ready_data_seasons in Hin by done.
    apply list_elem_of_fmap in Hin as (r0 & -> & [Hsome _]%list_elem_of_filter).
    destruct Hsome as [c Hc]. cbn.
    rewrite annotate_season_canonical, annotate_season_season.
    apply Hmap in Hc as Hl. destruct Hl as (l & Hl & Hid). by exists c, l.
Qed.

Lemma analysis_ready_rows_are_listed_witness :
  (λ r, season (annotated r)) <$>
    get_analysis_ready_data FranchiseMapper [colonels_1899; braves_season 1970] =
    filter (λ r, franchID r ∈ all_identifiers FranchiseMapper_lineages)
      [colonels_1899; braves_season 1970] ∧
  ∀ r, r ∈ get_analysis_ready_data FranchiseMapper
             [colonels_1899; braves_season 1970] →
    ∃ c l, canonical_franchise (annotated r) = Some c ∧
      (c, l) ∈ FranchiseMapper_lineages ∧
      franchID (season (annotated r)) ∈ lahman_ids l.
Proof.
  apply (analysis_ready_rows_are_listed FranchiseMapper_lineages FranchiseMapper).
  - apply (bool_decide_unpack _). by vm_compute.
  - apply FranchiseMapper_new.
Defined.

(** ** Means, variances and the effect size *)

Lemma of_Z_pos n : (0 < Q2Qc (inject_Z n))%Qc ↔ 0 < n.
Proof.
  unfold Qclt. change (this 0%Qc) with 0%Q.
  change (this (Q2Qc (inject_Z n))) with (Qred (inject_Z n)).
  rewrite Qred_correct. unfold Qlt, inject_Z. cbn [Qnum Qden]. lia.
Qed.

Lemma Qcsquare_nonneg (x : Qc) : (0 <= x * x)%Qc.
Proof.
  destruct (Qclt_le_dec x 0) as [Hneg|Hpos].
  - replace (x * x)%Qc with ((- x) * (- x))%Qc by ring.
    assert (0 <= - x)%Qc as Hx.
    { apply Qclt_le_weak in Hneg. apply Qcopp_le_compat in Hneg.
      by change (- 0)%Qc with 0%Qc in Hneg. }
    rewrite <- (Qcmult_0_l (- x)). by apply Qcmult_le_compat_r.
  - rewrite <- (Qcmult_0_l x). by apply Qcmult_le_compat_r.
Qed.

Lemma Qcdiv_nonneg (x y : Qc) : (0 <= x)%Qc → (0 < y)%Qc → (0 <= x / y)%Qc.
Proof.
  intros Hx Hy. apply Qcnot_lt_le. intros Hneg.
  apply (Qcmult_lt_compat_r _ _ y Hy) in Hneg.
  rewrite Qcmult_0_l in Hneg.
  assert (x / y * y = x)%Qc as Heq.
  { rewrite Qcmult_comm. apply Qcmult_div_r. by apply not_eq_sym, Qclt_not_eq. }
  rewrite Heq in Hneg. by apply Qclt_not_le in Hneg.
Qed.


Lemma notnull_values_Finite (qs : list Qc) :
  notnull_values (Finite <$> qs) = Finite <$> qs.
Proof.
  unfold notnull_values. induction qs as [|q qs IH]; [done|].
  rewrite fmap_cons, filter_cons_True by done. by rewrite IH.
Qed.

Lemma foldl_fadd_Finite (a : Qc) (qs : list Qc) :
  foldl fadd (Finite a) (Finite <$> qs) = Finite (foldl Qcplus a qs).
Proof. revert a. induction qs as [|q qs IH]; intros a; [done|]. apply IH. Qed.

Lemma fsum_Finite (qs : list Qc) : fsum (Finite <$> qs) = Finite (Qcsum qs).
Proof.
  unfold fsum, Qcsum, of_Z. by rewrite foldl_fadd_Finite.
Qed.

Lemma foldl_Qcplus_nonneg (a : Qc) (qs : list Qc) :
  (0 <= a)%Qc → Forall (λ q, 0 <= q)%Qc qs → (0 <= foldl Qcplus a qs)%Qc.
Proof.
  intros Ha Hqs. revert a Ha. induction Hqs as [|q qs Hq _ IH]; intros a Ha;
    [done|].
  cbn. apply IH. rewrite <- (Qcplus_0_l 0). by apply Qcplus_le_compat.
Qed.

Lemma fdiv_Finite_of_Z (a : Qc) (n : Z) :
  n ≠ 0 → fdiv (Finite a) (of_Z n) = Finite (a / Q2Qc (inject_Z n)).
Proof.
  intros Hn. unfold fdiv, of_Z.
  by rewrite bool_decide_eq_false_2 by (by rewrite of_Z_eq_0).
Qed.


(** The sample variance of finite values: NaN below two values, and a
    finite number that is not negative from two values on. *)
Lemma var_Finite (qs : list Qc) :
  ((length qs < 2)%nat → var (Finite <$> qs) = NaN) ∧
  ((2 ≤ length qs)%nat → ∃ v, var (Finite <$> qs) = Finite v ∧ (0 <= v)%Qc).
Proof.
  unfold var. cbv zeta. rewrite notnull_values_Finite, length_fmap.
  split; intros Hlen.
  - destruct (Z.leb_spec (Z.of_nat (length qs)) 1); [done|lia].
  - destruct (Z.leb_spec (Z.of_nat (length qs)) 1); [lia|].
    rewrite fsum_Finite, fdiv_Finite_of_Z by lia.
    set (avg := (Qcsum qs / Q2Qc (inject_Z (Z.of_nat (length qs))))%Qc).
    assert ((λ x, fmul (fsub (Finite avg) x) (fsub (Finite avg) x))
              <$> (Finite <$> qs) =
            Finite <$> ((λ q, (avg + - q) * (avg + - q))%Qc <$> qs)) as ->.
    { rewrite <- !list_fmap_compose. by apply list_fmap_ext. }
    rewrite fsum_Finite, fdiv_Finite_of_Z by lia.
    eexists. split; [done|].
    apply Qcdiv_nonneg; [|apply of_Z_pos; lia].
    apply foldl_Qcplus_nonneg; [done|].
    apply Forall_fmap, Forall_forall. intros q _. apply Qcsquare_nonneg.
Qed.

(** With [np.sqrt] of any shape, the pooled standard deviation is the
    root of a value that, for samples of finite win percentages, is NaN
    when a sample has fewer than two values and otherwise a finite number
    that is not negative: the root of a negative number is never taken. *)
Theorem pooled_variance_never_negative (np_sqrt : float64 → float64)
    (pre post : list Qc) :
  pooled_std np_sqrt (Finite <$> pre) (Finite <$> post) =
    np_sqrt (pooled_variance (Finite <$> pre) (Finite <$> post)) ∧
  (((length pre < 2)%nat ∨ (length post < 2)%nat) →
   pooled_variance (Finite <$> pre) (Finite <$> post) = NaN) ∧
  ((2 ≤ length pre)%nat → (2 ≤ length post)%nat →
   ∃ v, pooled_variance (Finite <$> pre) (Finite <$> post) = Finite v ∧
        (0 <= v)%Qc).
Proof.
  split; [done|]. unfold pooled_variance. cbv zeta. rewrite !length_fmap.
  destruct (var_Finite pre) as [Hpre1 Hpre2].
  destruct (var_Finite post) as [Hpost1 Hpost2].
  split.
  - intros [Hlen|Hlen].
    + by rewrite Hpre1.
    + rewrite Hpost1 by done. by destruct (fmul _ (var _)).
  - intros Hlpre Hlpost.
    destruct (Hpre2 Hlpre) as (v1 & -> & Hv1).
    destruct (Hpost2 Hlpost) as (v2 & -> & Hv2).
    cbn [fmul fadd of_Z]. rewrite fdiv_Finite_of_Z by lia.
    eexists. split; [done|].
    apply Qcdiv_nonneg; [|apply of_Z_pos; lia].
    rewrite <- (Qcplus_0_l 0). apply Qcplus_le_compat.
    + rewrite <- (Qcmult_0_l v1). apply Qcmult_le_compat_r; [|done].
      apply Qclt_le_weak, of_Z_pos. lia.
    + rewrite <- (Qcmult_0_l v2). apply Qcmult_le_compat_r; [|done].
      apply Qclt_le_weak, of_Z_pos. lia.
Qed.

Lemma pooled_variance_never_negative_witness :
  ∃ v, pooled_variance (Finite <$> sample_pre_values)
         (Finite <$> sample_post_values) = Finite v ∧ (0 <= v)%Qc.
Proof.
  apply (pooled_variance_never_negative sqrt_six_decimals
           sample_pre_values sample_post_values); cbn; lia.
Defined.

Lemma var_NaN (s : list float64) :
  (length (notnull_values s) ≤ 1)%nat → var s = NaN.
Proof.
  intros Hlen. unfold var. cbv zeta.
  destruct (Z.leb_spec (Z.of_nat (length (notnull_values s))) 1); [done|lia].
Qed.

(** When a sample has at most one value that is not null, one season for
    instance, no effect size is reported, provided the root of NaN is
    NaN: the effect size is [None] and the magnitude ["unknown"]. *)
Theorem effect_unknown_below_two_seasons (np_sqrt : float64 → float64)
    (pre post : list float64) :
  np_sqrt NaN = NaN →
  pre ≠ [] → post ≠ [] →
  (length (notnull_values pre) ≤ 1)%nat ∨
  (length (notnull_values post) ≤ 1)%nat →
  effect np_sqrt pre post = Some (None, "unknown").
Proof.
  intros Hsqrt Hpre Hpost Hlen. rewrite effect_nonempty by done.
  assert (pooled_std np_sqrt pre post = NaN) as ->; [|done].
  unfold pooled_std. cbv zeta.
  transitivity (np_sqrt NaN); [|done]. apply (f_equal np_sqrt).
  destruct Hlen as [Hlen|Hlen]; rewrite (var_NaN _ Hlen).
  - done.
  - by destruct (fmul _ (var pre)).
Qed.

Lemma effect_unknown_below_two_seasons_witness :
  effect sqrt_six_decimals [of_Q (4 # 10)] sample_post = Some (None, "unknown").
Proof.
  apply (effect_unknown_below_two_seasons sqrt_six_decimals).
  - reflexivity.
  - discriminate.
  - discriminate.
  - left. apply (bool_decide_unpack _). by vm_compute.
Defined.





(** ** The checks of the validation engine *)

Lemma bind_Ok_inv {A B} (r : result A) (k : A → result B) (y : B) :
  (r ≫= k) = Ok y → ∃ a, r = Ok a ∧ k a = Ok y.
Proof. destruct r as [a|e]; [|done]. intros Hk. by exists a. Qed.

Lemma for_each_inv {A B} (f : A → result (list B)) l ys :
  for_each f l = Ok ys →
  ∀ y, y ∈ ys ↔ ∃ x zs, x ∈ l ∧ f x = Ok zs ∧ y ∈ zs.
Proof.
  revert ys. induction l as [|x l IH]; intros ys Hrun y.
  - cbn in Hrun. injection Hrun as <-. split; [by intros ?%elem_of_nil|].
    by intros (? & ? & ?%elem_of_nil & _).
  - cbn in Hrun. apply bind_Ok_inv in Hrun as (zs & Hx & Hrun).
    apply bind_Ok_inv in Hrun as (more & Hl & Hrun).
    injection Hrun as <-. rewrite elem_of_app, (IH more Hl). split.
    + intros [Hy|(x' & zs' & Hin & Hf & Hy)].
      * exists x, zs. split; [by left|done].
      * exists x', zs'. split; [by right|done].
    + intros (x' & zs' & [->|Hin]%elem_of_cons & Hf & Hy).
      * left. congruence.
      * right. by exists x', zs'.
Qed.

Lemma continuity_at_findings canonical franchise_data relocation findings :
  continuity_at canonical franchise_data relocation = Ok findings →
  ∀ f, f ∈ findings →
    status f = Warning ∧ details f = None ∧
    ((check_name f = "franchise_id_continuity" ∧
      canonical = "ATL" ∧ year relocation = 1953) ∨
     (check_name f = "league_continuity" ∧ canonical ≠ "HOU")).
Proof.
  unfold continuity_at. intros Hrun.
  apply bind_Ok_inv in Hrun as (pre_reloc & _ & Hrun).
  apply bind_Ok_inv in Hrun as (post_reloc & _ & Hrun).
  destruct (rows pre_reloc) as [|pre ?];
    [injection Hrun as <-; by intros f ?%elem_of_nil|].
  destruct (rows post_reloc) as [|post ?];
    [injection Hrun as <-; by intros f ?%elem_of_nil|].
  apply bind_Ok_inv in Hrun as (pre_fid & _ & Hrun).
  apply bind_Ok_inv in Hrun as (post_fid & _ & Hrun).
  apply bind_Ok_inv in Hrun as (pre_league & _ & Hrun).
  apply bind_Ok_inv in Hrun as (post_league & _ & Hrun).
  injection Hrun as <-. intros f [Hf|Hf]%elem_of_app.
  - destruct (_ && _) eqn:Hcond; [|by apply elem_of_nil in Hf].
    apply list_elem_of_singleton in Hf as ->.
    apply andb_true_iff in Hcond as [[Hatl Hyear]%andb_true_iff _].
    apply bool_decide_eq_true in Hatl. apply Z.eqb_eq in Hyear.
    split; [done|]. split; [done|]. by left.
  - destruct (_ && _) eqn:Hcond; [|by apply elem_of_nil in Hf].
    apply list_elem_of_singleton in Hf as ->.
    apply andb_true_iff in Hcond as [_ Hhou%bool_decide_eq_true].
    split; [done|]. split; [done|]. by right.
Qed.

(** Each finding of the continuity check comes from the boundary check
    of one relocation of one lineage of the table. *)
Lemma validate_franchise_continuity_inv (df : DataFrame) (mapper : Mapper)
    (findings : list ValidationResult) (f : ValidationResult) :
  validate_franchise_continuity df mapper = Ok findings → f ∈ findings →
  ∃ c l franchise_data relocation fs,
    (c, l) ∈ lineages mapper ∧ relocation ∈ relocations l ∧
    continuity_at c franchise_data relocation = Ok fs ∧ f ∈ fs.
Proof.
  intros Hrun Hf. unfold validate_franchise_continuity in Hrun.
  apply (for_each_inv _ _ _ Hrun) in Hf as ([c l] & fs & Hin & Hfs & Hf).
  cbn in Hfs. apply bind_Ok_inv in Hfs as (franchise_data & _ & Hfs).
  destruct (empty franchise_data);
    [injection Hfs as <-; by apply elem_of_nil in Hf|].
  apply bind_Ok_inv in Hfs as (years & _ & Hfs).
  apply (for_each_inv _ _ _ Hfs) in Hf as (relocation & xs & Hrel & Hxs & Hf).
  by exists c, l, (sort_values_by_year franchise_data), relocation, xs.
Qed.

(** Every finding of the continuity check is a warning without details:
    either [franchise_id_continuity], which only the 1953 relocation of a
    lineage under the key ATL can get, or [league_continuity], which a
    lineage under the key HOU never gets. The check never fails. *)
Theorem franchise_continuity_only_warns (df : DataFrame) (mapper : Mapper)
    (findings : list ValidationResult) :
  validate_franchise_continuity df mapper = Ok findings →
  ∀ f, f ∈ findings →
    status f = Warning ∧ details f = None ∧
    ((check_name f = "franchise_id_continuity" ∧
      ∃ l relocation, ("ATL", l) ∈ lineages mapper ∧
        relocation ∈ relocations l ∧ year relocation = 1953) ∨
     (check_name f = "league_continuity" ∧
      ∃ c l, (c, l) ∈ lineages mapper ∧ c ≠ "HOU" ∧ relocations l ≠ [])).
Proof.
  intros Hrun f Hf.
  destruct (validate_franchise_continuity_inv _ _ _ _ Hrun Hf)
    as (c & l & franchise_data & relocation & fs & Hin & Hrel & Hfs & Hf').
  destruct (continuity_at_findings _ _ _ _ Hfs f Hf')
    as (Hstatus & Hdetails & [(Hname & -> & Hyear)|[Hname Hhou]]).
  - split; [done|]. split; [done|]. left. split; [done|].
    by exists l, relocation.
  - split; [done|]. split; [done|]. right. split; [done|].
    exists c, l. split; [done|]. split; [done|].
    intros Hnil. rewrite Hnil in Hrel. by apply elem_of_nil in Hrel.
Qed.

Lemma franchise_continuity_only_warns_witness :
  status braves_1953_finding = Warning ∧ details braves_1953_finding = None ∧
  ((check_name braves_1953_finding = "franchise_id_continuity" ∧
    ∃ l relocation, ("ATL", l) ∈ lineages FranchiseMapper ∧
      relocation ∈ relocations l ∧ year relocation = 1953) ∨
   (check_name braves_1953_finding = "league_continuity" ∧
    ∃ c l, (c, l) ∈ lineages FranchiseMapper ∧ c ≠ "HOU" ∧
      relocations l ≠ [])).
Proof.
  apply (franchise_continuity_only_warns braves_move_1953 FranchiseMapper
           [braves_1953_finding]).
  - by vm_compute.
  - apply list_elem_of_singleton. reflexivity.
Defined.

Lemma foldl_max_lt (c x : Z) (s : list Z) :
  c < foldl Z.max x s ↔ c < x ∨ ∃ z, z ∈ s ∧ c < z.
Proof.
  revert x. induction s as [|y s IH]; intros x.
  - cbn. split; [by left|]. intros [Hx|(z & Hz%elem_of_nil & _)]; done.
  - cbn. rewrite IH. split.
    + intros [Hmax|(z & Hz & Hlt)].
      * destruct (Z.max_spec x y) as [[_ Heq]|[_ Heq]]; rewrite Heq in Hmax.
        -- right. exists y. split; [by left|done].
        -- by left.
      * right. exists z. split; [by right|done].
    + intros [Hx|(z & [->|Hz]%elem_of_cons & Hlt)].
      * left. lia.
      * left. lia.
      * right. by exists z.
Qed.

Lemma series_max_lt {A} (c : Z) (field : A → Z) (l : list A) :
  match series_max (field <$> l) with
  | Some y => c < y
  | None => False
  end ↔ ∃ r, r ∈ l ∧ c < field r.
Proof.
  destruct l as [|r l]; cbn.
  - split; [done|]. by intros (r & Hr%elem_of_nil & _).
  - rewrite foldl_max_lt. split.
    + intros [Hr|(z & (r' & -> & Hr')%list_elem_of_fmap & Hlt)].
      * exists r. split; [by left|done].
      * exists r'. split; [by right|done].
    + intros (r' & [->|Hr']%elem_of_cons & Hlt); [by left|].
      right. exists (field r'). split; [|done].
      apply list_elem_of_fmap. by exists r'.
Qed.

Lemma where_nonempty df (p : Row → bool) col :
  col ∈ columns df →
  empty (where_ df (p <$> rows df)) = false ↔ ∃ r, r ∈ rows df ∧ p r = true.
Proof.
  intros Hcol. rewrite (empty_rows _ col) by done. cbn [where_ rows].
  rewrite select_fmap, bool_decide_eq_false. split.
  - intros Hne. destruct (filter _ _) as [|r rest] eqn:Hfilter; [done|].
    exists r.
    assert (r ∈ filter (λ r, p r = true) (rows df)) as Hin
      by (rewrite Hfilter; by left).
    apply list_elem_of_filter in Hin as [Hp Hr]. done.
  - intros (r & Hr & Hp) Hnil.
    assert (r ∈ filter (λ r, p r = true) (rows df)) as Hin
      by by apply list_elem_of_filter.
    rewrite Hnil in Hin. by apply elem_of_nil in Hin.
Qed.

Lemma column_Ok_inv {A} df col (field : Row → A) values :
  column df col field = Ok values →
  col ∈ columns df ∧ values = field <$> rows df.
Proof.
  unfold column. case_bool_decide; [|done]. intros Heq.
  injection Heq as <-. done.
Qed.

(** Splitting the test of a conditional step. *)
Ltac split_test H :=
  match type of H with
  | (if ?test then _ else _) = _ => destruct test
  end.

Lemma impossible_is_extreme (x : float) :
  PrimFloat.ltb x 0%float || gtb x 1%float = true →
  PrimFloat.ltb x 0.2%float || gtb x 0.8%float = true.
Proof.
  unfold gtb. rewrite !ltb_spec.
  replace (Prim2SF 0%float) with (S754_zero false) by (by vm_compute).
  replace (Prim2SF 1%float)
    with (S754_finite false 4503599627370496 (-52)) by (by vm_compute).
  replace (Prim2SF 0.2%float)
    with (S754_finite false 7205759403792794 (-55)) by (by vm_compute).
  replace (Prim2SF 0.8%float)
    with (S754_finite false 7205759403792794 (-53)) by (by vm_compute).
  destruct (Prim2SF x) as [[]|[]| |[] m e]; try done.
  unfold SFltb, SFcompare. cbn [orb].
  intros Habove. apply orb_true_iff. right.
  destruct (Z.compare_spec (-52) e) as [Heq|Hlt|Hgt]; [by subst e| |done].
  by rewrite (proj2 (Z.compare_lt_iff (-53) e)) by lia.
Qed.

Lemma game_counts_warn (modern_era : DataFrame)
    (game_counts : list ValidationResult) :
  (if empty modern_era then Ok []
   else
     modern_years ← column modern_era "yearID" yearID;
     let normal_modern :=
       where_ modern_era
         ((λ y, negb (bool_decide (y ∈ strike_years))) <$> modern_years) in
     if empty normal_modern then Ok []
     else
       games ← column normal_modern "G" G;
       let low_games := where_ normal_modern ((λ g, g <? 160) <$> games) in
       let high_games := where_ normal_modern ((λ g, 164 <? g) <$> games) in
       low ←
         (if 0 <? len low_games
          then
            _ ← getitem_list low_games ["yearID"; "teamID"; "G"];
            Ok [ {| check_name := "game_counts"; status := Warning;
                    message := str (len low_games) +:+
                      " modern seasons with unusually low game counts";
                    details := Some (LowGameSeasons
                      ((λ r, (yearID r, teamID r, G r)) <$> rows low_games)) |} ]
          else Ok []);
       high ←
         (if 0 <? len high_games
          then
            _ ← getitem_list high_games ["yearID"; "teamID"; "G"];
            Ok [ {| check_name := "game_counts"; status := Warning;
                    message := str (len high_games) +:+
                      " modern seasons with unusually high game counts";
                    details := Some (HighGameSeasons
                      ((λ r, (yearID r, teamID r, G r)) <$> rows high_games)) |} ]
          else Ok []);
       Ok (low ++ high)) = Ok game_counts →
  ∀ f, f ∈ game_counts → status f = Warning ∧ check_name f = "game_counts".
Proof.
  intros Hrun f Hf.
  destruct (empty modern_era);
    [injection Hrun as <-; by apply elem_of_nil in Hf|].
  apply bind_Ok_inv in Hrun as (modern_years & _ & Hrun).
  cbv zeta in Hrun. destruct (empty _);
    [injection Hrun as <-; by apply elem_of_nil in Hf|].
  apply bind_Ok_inv in Hrun as (games & _ & Hrun). cbv zeta in Hrun.
  apply bind_Ok_inv in Hrun as (low & Hlow & Hrun).
  apply bind_Ok_inv in Hrun as (high & Hhigh & Hrun).
  injection Hrun as <-. apply elem_of_app in Hf as [Hf|Hf].
  - match type of Hlow with
    | (if ?test then _ else _) = _ => destruct test
    end; [|injection Hlow as <-; by apply elem_of_nil in Hf].
    apply bind_Ok_inv in Hlow as (? & _ & Hlow). injection Hlow as <-.
    by apply list_elem_of_singleton in Hf as ->.
  - match type of Hhigh with
    | (if ?test then _ else _) = _ => destruct test
    end; [|injection Hhigh as <-; by apply elem_of_nil in Hf].
    apply bind_Ok_inv in Hhigh as (? & _ & Hhigh). injection Hhigh as <-.
    by apply list_elem_of_singleton in Hf as ->.
Qed.

(** The findings of the historical check, block by block. *)
Lemma validate_historical_accuracy_parts (current_year : Z)
    (df : DataFrame) (findings : list ValidationResult) :
  validate_historical_accuracy current_year df = Ok findings →
  ∃ year_low year_high game_counts impossible extreme,
    findings = year_low ++ year_high ++ game_counts ++ impossible ++ extreme ∧
    (∀ f, f ∈ year_low → status f = Warning) ∧
    (∀ f, f ∈ year_high → status f = Fail) ∧
    (year_high ≠ [] ↔ ∃ r, r ∈ rows df ∧ current_year < yearID r) ∧
    (∀ f, f ∈ game_counts → status f = Warning) ∧
    (∀ f, f ∈ impossible → status f = Fail) ∧
    (impossible ≠ [] ↔ ∃ r, r ∈ rows df ∧ impossible_percentage r) ∧
    (∀ f, f ∈ extreme →
       status f = Warning ∧ check_name f = "extreme_records") ∧
    ((∃ r, r ∈ rows df ∧ impossible_percentage r) → extreme ≠ []).
Proof.
  intros Hrun. unfold validate_historical_accuracy in Hrun.
  apply bind_Ok_inv in Hrun as (years & [Hyear ->]%column_Ok_inv & Hrun).
  apply bind_Ok_inv in Hrun as (game_counts & Hgames & Hrun).
  apply bind_Ok_inv in Hrun as (pcts & [Hpct ->]%column_Ok_inv & Hrun).
  apply bind_Ok_inv in Hrun as (impossible & Himp & Hrun).
  apply bind_Ok_inv in Hrun as (extreme & Hext & Hrun).
  injection Hrun as <-.
  pose proof (game_counts_warn _ _ Hgames) as Hgc. clear Hgames.
  pose proof (series_max_lt current_year yearID (rows df)) as Hmax.
  rewrite <- list_fmap_compose in Himp, Hext.
  pose proof (where_nonempty df
    ((λ p, PrimFloat.ltb p 0%float || gtb p 1%float) ∘ W_pct) "W_pct" Hpct) as Hi.
  pose proof (where_nonempty df
    ((λ p, PrimFloat.ltb p 0.2%float || gtb p 0.8%float) ∘ W_pct)
    "W_pct" Hpct) as He.
  eexists _, _, game_counts, impossible, extreme.
  split; [reflexivity|]. split; [|split; [|split; [|split; [|split; [|split; [|split]]]]]].
  - intros f Hf. destruct (series_min _) as [y|]; [|by apply elem_of_nil in Hf].
    destruct (y <? 1871); [|by apply elem_of_nil in Hf].
    by apply list_elem_of_singleton in Hf as ->.
  - intros f Hf. destruct (series_max _) as [y|]; [|by apply elem_of_nil in Hf].
    destruct (current_year <? y); [|by apply elem_of_nil in Hf].
    by apply list_elem_of_singleton in Hf as ->.
  - rewrite <- Hmax. destruct (series_max _) as [y|]; [|done].
    destruct (Z.ltb_spec current_year y); split; done || lia.
  - intros f Hf. by apply Hgc.
  - intros f Hf. split_test Himp;
      [injection Himp as <-; by apply elem_of_nil in Hf|].
    apply bind_Ok_inv in Himp as (? & _ & Himp). injection Himp as <-.
    by apply list_elem_of_singleton in Hf as ->.
  - unfold impossible_percentage. setoid_rewrite <- orb_true_iff.
    rewrite <- Hi. split_test Himp.
    + injection Himp as <-. done.
    + apply bind_Ok_inv in Himp as (? & _ & Himp). injection Himp as <-. done.
  - intros f Hf. split_test Hext;
      [injection Hext as <-; by apply elem_of_nil in Hf|].
    apply bind_Ok_inv in Hext as (? & _ & Hext). injection Hext as <-.
    by apply list_elem_of_singleton in Hf as ->.
  - intros (r & Hr & Hbad) ->.
    assert (empty (where_ df
            (((λ p, PrimFloat.ltb p 0.2%float || gtb p 0.8%float) ∘ W_pct)
               <$> rows df)) = false) as Hfalse.
    { apply He. exists r. split; [done|]. cbn.
      apply impossible_is_extreme. by apply orb_true_iff. }
    rewrite Hfalse in Hext.
    by apply bind_Ok_inv in Hext as (? & _ & Hext).
Qed.

(** The historical check reports a failure exactly for a season after
    the current year or a win percentage outside zero to one. *)
Lemma validate_historical_accuracy_fail_iff (current_year : Z)
    (df : DataFrame) (findings : list ValidationResult) :
  validate_historical_accuracy current_year df = Ok findings →
  (∃ f, f ∈ findings ∧ status f = Fail) ↔
  (∃ r, r ∈ rows df ∧ (current_year < yearID r ∨ impossible_percentage r)).
Proof.
  intros (year_low & year_high & game_counts & impossible & extreme & -> &
          Hlow & Hhigh & Hfuture & Hgames & Himpossible & Himp_iff &
          Hextreme & _)%validate_historical_accuracy_parts.
  split.
  - intros (f & Hf & Hfail).
    repeat (apply elem_of_app in Hf as [Hf|Hf]).
    + by rewrite (Hlow f Hf) in Hfail.
    + assert (year_high ≠ []) as Hne
        by (intros ->; by apply elem_of_nil in Hf).
      apply Hfuture in Hne as (r & Hr & Hlt). exists r. split; [done|by left].
    + by rewrite (Hgames f Hf) in Hfail.
    + assert (impossible ≠ []) as Hne
        by (intros ->; by apply elem_of_nil in Hf).
      apply Himp_iff in Hne as (r & Hr & Hbad).
      exists r. split; [done|by right].
    + by rewrite (proj1 (Hextreme f Hf)) in Hfail.
  - intros (r & Hr & [Hlt|Hbad]).
    + assert (year_high ≠ []) as Hne by (apply Hfuture; by exists r).
      destruct year_high as [|f rest]; [done|].
      exists f. split; [|apply Hhigh; by left].
      apply elem_of_app. right. apply elem_of_app. left. by left.
    + assert (impossible ≠ []) as Hne by (apply Himp_iff; by exists r).
      destruct impossible as [|f rest]; [done|].
      exists f. split; [|apply Himpossible; by left].
      do 3 (apply elem_of_app; right). apply elem_of_app. left. by left.
Qed.

(** The historical check never passes anything. It reports a failure
    exactly when some season lies after the current year or stores a win
    percentage below zero or above one, and a table with such a
    percentage also gets the warning for extreme records. *)
Theorem historical_accuracy_failures (current_year : Z) (df : DataFrame)
    (findings : list ValidationResult) :
  validate_historical_accuracy current_year df = Ok findings →
  (∀ f, f ∈ findings → status f ≠ Pass) ∧
  ((∃ f, f ∈ findings ∧ status f = Fail) ↔
   (∃ r, r ∈ rows df ∧ (current_year < yearID r ∨ impossible_percentage r))) ∧
  ((∃ r, r ∈ rows df ∧ impossible_percentage r) →
   ∃ f, f ∈ findings ∧ check_name f = "extreme_records" ∧ status f = Warning).
Proof.
  intros Hrun.
  split; [|split; [by apply validate_historical_accuracy_fail_iff|]].
  - destruct (validate_historical_accuracy_parts _ _ _ Hrun)
      as (year_low & year_high & game_counts & impossible & extreme & -> &
          Hlow & Hhigh & _ & Hgames & Himpossible & _ & Hextreme & _).
    intros f Hf. repeat (apply elem_of_app in Hf as [Hf|Hf]).
    + by rewrite (Hlow f Hf).
    + by rewrite (Hhigh f Hf).
    + by rewrite (Hgames f Hf).
    + by rewrite (Himpossible f Hf).
    + by rewrite (proj1 (Hextreme f Hf)).
  - destruct (validate_historical_accuracy_parts _ _ _ Hrun)
      as (year_low & year_high & game_counts & impossible & extreme & -> &
          _ & _ & _ & _ & _ & _ & Hextreme & Hsome).
    intros Hbad. apply Hsome in Hbad.
    destruct extreme as [|f rest]; [done|].
    exists f. split.
    + do 4 (apply elem_of_app; right). by left.
    + destruct (Hextreme f) as [Hstatus Hname]; [by left|done].
Qed.

Lemma historical_accuracy_failures_witness :
  (∀ f, f ∈ impossible_pct_findings → status f ≠ Pass) ∧
  ((∃ f, f ∈ impossible_pct_findings ∧ status f = Fail) ↔
   (∃ r, r ∈ rows impossible_pct_table ∧
      (2025 < yearID r ∨ impossible_percentage r))) ∧
  ((∃ r, r ∈ rows impossible_pct_table ∧ impossible_percentage r) →
   ∃ f, f ∈ impossible_pct_findings ∧ check_name f = "extreme_records" ∧
     status f = Warning).
Proof.
  apply (historical_accuracy_failures 2025 impossible_pct_table
           impossible_pct_findings).
  by vm_compute.
Defined.

(** ** The loader and the validated load *)







(** The 1906 Cubs load as 116 wins in 152 games, 0.763. *)
Example cubs_1906_loads :
  load_lahman_teams cubs_1906_csv = Ok cubs_1906_table.
Proof. by vm_compute. Qed.






(** ** The relocation summary and the sufficiency check *)

Lemma filter_fmap {A B} (f : A → B) (P : B → Prop)
    `{∀ y, Decision (P y)} (l : list A) :
  filter P (f <$> l) = f <$> filter (λ x, P (f x)) l.
Proof.
  induction l as [|x l IH]; [done|]. rewrite fmap_cons.
  destruct (decide (P (f x))) as [Hx|Hx].
  - rewrite (filter_cons_True P) by done.
    rewrite (filter_cons_True (λ x, P (f x))) by done.
    by rewrite fmap_cons, IH.
  - rewrite (filter_cons_False P) by done.
    by rewrite (filter_cons_False (λ x, P (f x))) by done.
Qed.

Lemma mapping_of_lineage table m c l x :
  new_mapper table = Ok m → NoDup (table.*1) → (c, l) ∈ table →
  lahman_to_canonical m !! x = Some c ↔ x ∈ lahman_ids l.
Proof.
  intros [Htable Hbuild]%new_mapper_Ok Hnd Hin.
  destruct (_build_lahman_mapping_Ok _ _ Hbuild) as [_ Hmap].
  rewrite Hmap. split.
  - intros (l' & Hin' & Hx).
    assert (Some l = Some l') as [= ->]; [|done].
    by rewrite <- (dict_get_elem_of c l table), <- (dict_get_elem_of c l' table).
  - intros Hx. by exists l.
Qed.

(** The rows of a relocated lineage in the analysis data are the
    seasons under its identifiers, each with its relocated annotation. *)
Lemma of_franchise_relocated table m (df : list Row) c l first others :
  new_mapper table = Ok m → NoDup (table.*1) → (c, l) ∈ table →
  relocations l = first :: others →
  of_franchise c
    (filter (λ r, is_relocated_franchise (annotated r) = true)
       (get_analysis_ready_data m df)) =
  (λ r, {| annotated := relocated_row c (year (max_by_year first others)) r;
           relocation_era := era_of (relocations l) (yearID r) |})
    <$> filter (λ r, franchID r ∈ lahman_ids l) df.
Proof.
  intros Hnew Hnd Hin Hrel.
  pose proof (mapping_of_lineage table m c l) as Hmap.
  destruct (new_mapper_Ok _ _ Hnew) as [Htable _].
  unfold of_franchise.
  rewrite get_analysis_ready_data_seasons by (by rewrite Htable).
  rewrite Htable. rewrite !filter_fmap, !list_filter_filter.
  assert (∀ r, franchID r ∈ lahman_ids l →
            analyse_season table (lahman_to_canonical m) r =
            {| annotated :=
                 relocated_row c (year (max_by_year first others)) r;
               relocation_era := era_of (relocations l) (yearID r) |})
    as Hrow.
  { intros r Hr. apply (analyse_season_relocated _ _ _ c l first others);
      [done..|]. by apply Hmap. }
  rewrite (list_filter_iff _ (λ r, franchID r ∈ lahman_ids l)).
  - apply list_fmap_ext. intros i r Hr.
    apply list_elem_of_lookup_2, list_elem_of_filter in Hr as [Hr _].
    by apply Hrow.
  - intros r. split.
    + intros [[Hc _] _]. unfold analyse_season in Hc. cbn in Hc.
      rewrite annotate_season_canonical in Hc. by apply Hmap.
    + intros Hr. rewrite (Hrow r Hr). cbn.
      split; [done|]. apply (proj2 (Hmap (franchID r) Hnew Hnd Hin)) in Hr.
      by rewrite Hr.
Qed.

Lemma length_filter_year_split (y : Z) (l : list Row) :
  Z.of_nat (length l) =
  Z.of_nat (length (filter (λ r, yearID r < y) l)) +
  Z.of_nat (length (filter (λ r, y ≤ yearID r) l)).
Proof.
  rewrite <- (Permutation_length (filter_app_complement (λ r, yearID r < y) l)).
  rewrite length_app, Nat2Z.inj_add.
  rewrite (list_filter_iff (λ r, ¬ yearID r < y) (λ r, y ≤ yearID r));
    [done|]. intros r. lia.
Qed.

Lemma length_pre_rows c y (era : Row → string) (seasons : list Row) :
  Z.of_nat (length (pre_rows
    ((λ r, {| annotated := relocated_row c y r; relocation_era := era r |})
       <$> seasons))) =
  Z.of_nat (length (filter (λ r, yearID r < y) seasons)).
Proof.
  unfold pre_rows. rewrite filter_fmap, length_fmap.
  do 2 f_equal. apply list_filter_iff. intros r. cbn. apply Z.ltb_lt.
Qed.

Lemma length_post_rows c y (era : Row → string) (seasons : list Row) :
  Z.of_nat (length (post_rows
    ((λ r, {| annotated := relocated_row c y r; relocation_era := era r |})
       <$> seasons))) =
  Z.of_nat (length (filter (λ r, y ≤ yearID r) seasons)).
Proof.
  unfold post_rows. rewrite filter_fmap, length_fmap.
  do 2 f_equal. apply list_filter_iff. intros r. cbn. apply Z.leb_le.
Qed.

Lemma relocation_summary_of_lineage table m (df : DataFrame) c l first others :
  new_mapper table = Ok m → NoDup (table.*1) → (c, l) ∈ table →
  relocations l = first :: others →
  relocation_summary m
    (filter (λ r, is_relocated_franchise (annotated r) = true)
       (get_analysis_ready_data m (rows df))) c =
  if bool_decide (franchise_seasons df l = []) then []
  else
    let y := year (max_by_year first others) in
    let seasons :=
      (λ r, {| annotated := relocated_row c y r;
               relocation_era := era_of (relocations l) (yearID r) |})
        <$> franchise_seasons df l in
    let pre_avg :=
      match pre_rows seasons with
      | [] => None
      | _ => Some (mean (wpct (pre_rows seasons)))
      end in
    let post_avg :=
      match post_rows seasons with
      | [] => None
      | _ => Some (mean (wpct (post_rows seasons)))
      end in
    [ {| summary_franchise := c;
         summary_current_name := current_name l;
         summary_relocation_year := y;
         summary_from_city := from_city (max_by_year first others);
         summary_to_city := to_city (max_by_year first others);
         total_seasons := Z.of_nat (length (franchise_seasons df l));
         pre_relocation_seasons := seasons_before df l y;
         post_relocation_seasons := seasons_from df l y;
         pre_relocation_avg_wpct := pre_avg;
         post_relocation_avg_wpct := post_avg;
         wpct_change :=
           match pre_avg, post_avg with
           | Some pre, Some post => Some (fsub post pre)
           | _, _ => None
           end;
         sufficient_data :=
           (10 <=? seasons_before df l y) && (10 <=? seasons_from df l y) |} ].
Proof.
  intros Hnew Hnd Hin Hrel.
  destruct (new_mapper_Ok _ _ Hnew) as [Htable _].
  unfold relocation_summary. cbv zeta.
  rewrite (of_franchise_relocated table m (rows df) c l first others) by done.
  rewrite get_franchise_info_dict_get, Htable.
  rewrite (dict_get_elem_of c l table) by done.
  change (filter (λ r, franchID r ∈ lahman_ids l) (rows df))
    with (franchise_seasons df l).
  unfold seasons_before, seasons_from.
  rewrite length_pre_rows, length_post_rows, length_fmap.
  destruct (franchise_seasons df l) as [|r seasons]; [done|].
  rewrite bool_decide_eq_false_2 by done. rewrite !fmap_cons.
  by rewrite Hrel.
Qed.

Lemma summary_counts_of_lineage table m (df : DataFrame) c l :
  new_mapper table = Ok m → NoDup (table.*1) → (c, l) ∈ table →
  relocations l ≠ [] →
  summary_counts <$>
    relocation_summary m
      (filter (λ r, is_relocated_franchise (annotated r) = true)
         (get_analysis_ready_data m (rows df))) c =
  season_counts df (c, l).
Proof.
  intros Hnew Hnd Hin Hrel.
  destruct (relocations l) as [|first others] eqn:Hrelocations; [done|].
  rewrite (relocation_summary_of_lineage table m df c l first others) by done.
  unfold season_counts, primary_relocation_year. cbn [fst snd].
  rewrite Hrelocations. case_bool_decide; [done|].
  cbv zeta. rewrite fmap_cons. unfold summary_counts at 1. cbn.
  do 2 f_equal.
  destruct (Z.leb_spec 10 (seasons_before df l (year (max_by_year first others))));
    destruct (Z.leb_spec 10 (seasons_from df l (year (max_by_year first others))));
    cbn; symmetry;
    (by apply bool_decide_eq_true_2 || (apply bool_decide_eq_false_2; lia)).
Qed.

Lemma summary_counts_of_lineages table m (df : DataFrame)
    (items : Lineages) :
  new_mapper table = Ok m → NoDup (table.*1) → items ⊆ table →
  summary_counts <$>
    ((fst <$> filter (λ kv, relocations kv.2 ≠ []) items) ≫=
       relocation_summary m
         (filter (λ r, is_relocated_franchise (annotated r) = true)
            (get_analysis_ready_data m (rows df)))) =
  items ≫= season_counts df.
Proof.
  intros Hnew Hnd. induction items as [|[c l] items IH]; intros Hsub; [done|].
  assert (items ⊆ table) as Hrest by (intros kv Hkv; apply Hsub; by right).
  assert ((c, l) ∈ table) as Hin by (apply Hsub; by left).
  rewrite bind_cons, <- (IH Hrest).
  destruct (decide (relocations l ≠ [])) as [Hrel|Hrel].
  - rewrite filter_cons_True by done. rewrite fmap_cons, bind_cons, fmap_app.
    cbn [fst]. by rewrite (summary_counts_of_lineage table m df c l).
  - rewrite filter_cons_False by done.
    unfold season_counts at 1. unfold primary_relocation_year. cbn [snd].
    destruct (relocations l); [done|]. exfalso. by apply Hrel.
Qed.

(** The relocation summary and the sufficiency check count the same
    seasons: for a mapper built from a table with distinct keys, the
    entries the check collects are, in order, the franchise, relocation
    year, pre and post counts and sufficiency flag of the rows of the
    summary. In every row of the summary the franchise has at least one
    season, and the pre and post counts add up to the total. *)
Theorem summary_agrees_with_sufficiency_check (table : Lineages) (m : Mapper)
    (df : DataFrame) :
  new_mapper table = Ok m → NoDup (table.*1) →
  "franchID" ∈ columns df → "yearID" ∈ columns df →
  for_each (completeness_entry df) (lineages m) =
    Ok (summary_counts <$> generate_relocation_summary m (rows df)) ∧
  ∀ s, s ∈ generate_relocation_summary m (rows df) →
    0 < total_seasons s ∧
    total_seasons s = pre_relocation_seasons s + post_relocation_seasons s.
Proof.
  intros Hnew Hnd Hfranch Hyear.
  destruct (new_mapper_Ok _ _ Hnew) as [Htable _]. split.
  - rewrite check_data_completeness_entries by done. f_equal.
    unfold generate_relocation_summary, get_relocated_franchises. cbv zeta.
    rewrite Htable. symmetry.
    by apply (summary_counts_of_lineages table m df table).
  - intros s. unfold generate_relocation_summary. cbv zeta.
    intros (c & Hs & Hc)%list_elem_of_bind.
    apply elem_of_get_relocated_franchises in Hc as (l & Hin & Hrel).
    rewrite Htable in Hin.
    destruct (relocations l) as [|first others] eqn:Hrelocations; [done|].
    rewrite (relocation_summary_of_lineage table m df c l first others)
      in Hs by done.
    case_bool_decide as Hseasons; [by apply elem_of_nil in Hs|].
    apply list_elem_of_singleton in Hs as ->. cbn. split.
    + destruct (franchise_seasons df l); [done|]. rewrite length_cons. lia.
    + apply length_filter_year_split.
Qed.

Lemma summary_agrees_with_sufficiency_check_witness :
  for_each (completeness_entry (dodgers_seasons 1950))
    (lineages CorrectedFranchiseMapper) =
    Ok (summary_counts <$>
          generate_relocation_summary CorrectedFranchiseMapper
            (rows (dodgers_seasons 1950))) ∧
  ∀ s, s ∈ generate_relocation_summary CorrectedFranchiseMapper
             (rows (dodgers_seasons 1950)) →
    0 < total_seasons s ∧
    total_seasons s = pre_relocation_seasons s + post_relocation_seasons s.
Proof.
  apply (summary_agrees_with_sufficiency_check
           CorrectedFranchiseMapper_lineages CorrectedFranchiseMapper
           (dodgers_seasons 1950)).
  - by vm_compute.
  - apply (bool_decide_unpack _). by vm_compute.
  - apply (bool_decide_unpack _). by vm_compute.
  - apply (bool_decide_unpack _). by vm_compute.
Defined.
